(** * Netskope event collector: fetch, paginate, de-duplicate, checkpoint

    A shallow embedding of
    [Packs/Netskope/Integrations/NetskopeEventCollector/NetskopeEventCollector.py]
    and the properties of its incremental fetch engine.

    Python dictionaries are finite maps ([gmap]) keyed by strings, the
    [set] of already delivered identifiers is a [gset], Python integers are
    [Z], and exceptions are the [Raise] results of a small error monad.  The
    [while True] loop of [get_all_events] is driven by fuel; running out of
    it is the third result, [OutOfFuel]. *)

From stdpp Require Import gmap strings list fin_maps sorting.
From Stdlib Require Import ZArith Lia.

Local Open Scope string_scope.
Local Open Scope list_scope.
Local Open Scope Z_scope.

(** ** Python values *)

(** The values a record field or an identifier can take. *)
Inductive scalar :=
  | SNone
  | SInt (z : Z)
  | SStr (s : string).

Global Instance scalar_eq_dec : EqDecision scalar.
Proof. solve_decision. Defined.

Global Instance scalar_countable : Countable scalar.
Proof.
  refine (inj_countable'
    (fun a => match a with
              | SNone => inl ()
              | SInt z => inr (inl z)
              | SStr s => inr (inr s)
              end)
    (fun x => match x with
              | inl _ => SNone
              | inr (inl z) => SInt z
              | inr (inr s) => SStr s
              end) _).
  by intros [].
Defined.

(** An event record: a [dict] from field names to values. *)
Abbreviation record := (gmap string scalar).

(** What a last-run dictionary holds under a key: a timestamp (or any other
    scalar), a [list] of identifiers, or a [set] of identifiers. *)
Inductive pyobj :=
  | Atom (a : scalar)
  | PyList (l : list scalar)
  | PySet (s : gset scalar).

Global Instance pyobj_eq_dec : EqDecision pyobj.
Proof. solve_decision. Defined.

Abbreviation last_run_dict := (gmap string pyobj).

(** ** Exceptions *)

Inductive exn :=
  | KeyError
  | TypeError
  | ValueError.

Inductive outcome (A : Type) :=
  | Ret (a : A)
  | Raise (e : exn)
  | OutOfFuel.

Arguments Ret {A} a.
Arguments Raise {A} e.
Arguments OutOfFuel {A}.

Global Instance exn_eq_dec : EqDecision exn.
Proof. solve_decision. Defined.

Global Instance outcome_eq_dec {A} `{EqDecision A} : EqDecision (outcome A).
Proof. solve_decision. Defined.

Definition bind {A B} (m : outcome A) (k : A -> outcome B) : outcome B :=
  match m with
  | Ret a => k a
  | Raise e => Raise e
  | OutOfFuel => OutOfFuel
  end.

Notation "'let*' p := m 'in' k" := (bind m (fun p => k))
  (at level 10, p pattern, m at level 100, k at level 200).

(** [for x in l: acc = f(acc, x)], stopping at the first exception. *)
Fixpoint foldM {A B} (f : A -> B -> outcome A) (l : list B) (a : A) : outcome A :=
  match l with
  | [] => Ret a
  | x :: l' => let* a' := f a x in foldM f l' a'
  end.

(** [for x in l: f(x)] where [f] updates [x] in place. *)
Fixpoint mapM {A B} (f : A -> outcome B) (l : list A) : outcome (list B) :=
  match l with
  | [] => Ret []
  | x :: l' => let* y := f x in let* ys := mapM f l' in Ret (y :: ys)
  end.

(** ** Primitive operations of the language *)

(** [d[k]] *)
Definition subscript {V} (d : gmap string V) (k : string) : outcome V :=
  match d !! k with
  | Some v => Ret v
  | None => Raise KeyError
  end.

(** [d.get(k)], [None] when the key is absent. *)
Definition get (d : record) (k : string) : scalar :=
  default SNone (d !! k).

(** [a == o] for a scalar [a]: a list or a set never equals a scalar. *)
Definition py_eq (a : scalar) (o : pyobj) : bool :=
  match o with
  | Atom b => bool_decide (a = b)
  | _ => false
  end.

(** Truth value of an object, as [not], [or] and [if] see it. *)
Definition truthy (o : pyobj) : bool :=
  match o with
  | Atom SNone => false
  | Atom (SInt z) => negb (Z.eqb z 0)
  | Atom (SStr s) => negb (String.eqb s "")
  | PyList l => match l with [] => false | _ => true end
  | PySet s => negb (bool_decide (s = ∅))
  end.

Fixpoint chars (s : string) : list scalar :=
  match s with
  | EmptyString => []
  | String c s' => SStr (String c EmptyString) :: chars s'
  end.

(** [set(o)]: the elements of a list or a set, the characters of a string;
    [None] and integers are not iterable. *)
Definition py_set (o : pyobj) : outcome (gset scalar) :=
  match o with
  | PyList l => Ret (list_to_set l)
  | PySet s => Ret s
  | Atom (SStr s) => Ret (list_to_set (chars s))
  | Atom _ => Raise TypeError
  end.

(** [l[:n]]: the first [n] items, or all but the last [-n] when [n < 0]. *)
Definition slice_to {A} (n : Z) (l : list A) : list A :=
  if 0 <=? n then firstn (Z.to_nat n) l
  else firstn (Z.to_nat (Z.of_nat (length l) + n)) l.

Fixpoint str_repeat (n : nat) (s : string) : string :=
  match n with
  | O => ""
  | S n' => s +:+ str_repeat n' s
  end.

(** [a * 1000] *)
Definition times_1000 (a : scalar) : outcome scalar :=
  match a with
  | SNone => Raise TypeError
  | SInt z => Ret (SInt (z * 1000))
  | SStr s => Ret (SStr (str_repeat 1000 s))
  end.

(** ** Constants *)

Definition ALL_SUPPORTED_EVENT_TYPES : list string :=
  ["audit"; "page"; "network"; "application"; "alert"].
Definition MAX_EVENTS_PAGE_SIZE : Z := 10000.
Definition MAX_SKIP : Z := 50000.

(** ** [dedup_by_id] *)

(** [f'{event_type}-ids'] *)
Definition ids_key (event_type : string) : string := event_type +:+ "-ids".

(** The four locals the loop of [dedup_by_id] updates. *)
Record dedup_locals := {
  new_events : list record;
  new_events_ids : list scalar;
  last_run_ids : gset scalar;
  new_last_run : last_run_dict
}.

(** [new_events_ids or last_run_ids] *)
Definition ids_to_save (st : dedup_locals) : pyobj :=
  match new_events_ids st with
  | [] => PySet (last_run_ids st)
  | _ :: _ => PyList (new_events_ids st)
  end.

(** One iteration of the [for event in sorted_list[:limit]] loop.  The list
    and the set stored under the ids key are stored by reference in the
    source; every iteration stores them again, so the entry read after the
    loop is the one written here by the last iteration. *)
Definition dedup_iter (last_run : last_run_dict) (event_type : string)
    (st : dedup_locals) (event : record) : outcome dedup_locals :=
  let event_timestamp := get event "timestamp" in
  let event_id := get event "_id" in
  let event := <["event_id" := event_id]> event in
  let* saved := subscript last_run event_type in
  let st :=
    if py_eq event_timestamp saved then
      if bool_decide (event_id ∈ last_run_ids st) then st
      else {| new_events := new_events st ++ [event];
              new_events_ids := new_events_ids st;
              last_run_ids := {[event_id]} ∪ last_run_ids st;
              new_last_run := new_last_run st |}
    else {| new_events := new_events st ++ [event];
            new_events_ids := new_events_ids st ++ [event_id];
            last_run_ids := last_run_ids st;
            new_last_run := <[event_type := Atom event_timestamp]> (new_last_run st) |} in
  Ret {| new_events := new_events st;
         new_events_ids := new_events_ids st;
         last_run_ids := last_run_ids st;
         new_last_run := <[ids_key event_type := ids_to_save st]> (new_last_run st) |}.

Definition dedup_by_id (last_run : last_run_dict) (results : list record)
    (event_type : string) (limit : Z) : outcome (list record * last_run_dict) :=
  let* ids := py_set (default (PyList []) (last_run !! ids_key event_type)) in
  let sorted_list := rev results in
  let* st := foldM (dedup_iter last_run event_type) (slice_to limit sorted_list)
               {| new_events := []; new_events_ids := [];
                  last_run_ids := ids; new_last_run := ∅ |} in
  Ret (new_events st, new_last_run st).

(** ** The client *)

(** What one call of the client hands to the transport: the URL suffix and
    the entries of the JSON body (v1) or of the query parameters (v2). *)
Record request := {
  url_suffix : string;
  req_type : option string;
  starttime : pyobj;
  endtime : Z;
  req_limit : Z;
  req_skip : Z
}.

(** The entries [get_all_events] reads from a response: [.get('status')]
    and [.get('data', [])] for v1, [.get('ok')] and [.get('result', [])] for
    v2. *)
Record response := {
  resp_status : scalar;
  resp_ok : scalar;
  resp_data : list record;
  resp_result : list record
}.

Definition len {A} (l : list A) : Z := Z.of_nat (length l).

(** [len(results) == MAX_EVENTS_PAGE_SIZE] then [skip += MAX_EVENTS_PAGE_SIZE] *)
Definition next_skip (skip : Z) (results : list record) : Z :=
  if len results =? MAX_EVENTS_PAGE_SIZE then skip + MAX_EVENTS_PAGE_SIZE
  else skip.

(** [len(results) < MAX_EVENTS_PAGE_SIZE or not results or len(events) == MAX_SKIP] *)
Definition stop_paging (events results : list record) : bool :=
  (len results <? MAX_EVENTS_PAGE_SIZE)
  || match results with [] => true | _ => false end
  || (len events =? MAX_SKIP).

Section Collector.

(** The world outside the collector: the clock, the transport
    ([BaseClient._http_request], with its three retries) and the helper
    [timestamp_to_datestring] of the common server library are parameters.
    A transport call answers with a response and moves the world on. *)
Context {world : Type}.
Variable now : world -> Z.
Variable http_request : world -> request -> response * world.
Variable timestamp_to_datestring : scalar -> outcome string.

(** [last_run.get(event_type)] *)
Definition last_run_get (last_run : last_run_dict) (key : string) : pyobj :=
  default (Atom SNone) (last_run !! key).

(** [limit if is_command else MAX_EVENTS_PAGE_SIZE] *)
Definition page_limit (limit : Z) (is_command : bool) : Z :=
  if is_command then limit else MAX_EVENTS_PAGE_SIZE.

Definition get_events_request_v1 (w : world) (event_type : string)
    (last_run : last_run_dict) (skip limit : Z) (is_command : bool)
    : response * world :=
  http_request w
    {| url_suffix := "events";
       req_type := Some event_type;
       starttime := last_run_get last_run event_type;
       endtime := now w;
       req_limit := page_limit limit is_command;
       req_skip := skip |}.

Definition get_alerts_request_v1 (w : world) (last_run : last_run_dict)
    (skip limit : Z) (is_command : bool) : response * world :=
  http_request w
    {| url_suffix := "alerts";
       req_type := None;
       starttime := last_run_get last_run "alert";
       endtime := now w;
       req_limit := page_limit limit is_command;
       req_skip := skip |}.

Definition get_events_request_v2 (w : world) (event_type : string)
    (last_run : last_run_dict) (skip limit : Z) (is_command : bool)
    : response * world :=
  http_request w
    {| url_suffix := "events/data/" +:+ event_type;
       req_type := None;
       starttime := last_run_get last_run event_type;
       endtime := now w;
       req_limit := page_limit limit is_command;
       req_skip := skip |}.

(** ** [populate_parsing_rule_fields] *)

Definition populate_parsing_rule_fields (event : record) (event_type : string)
    : outcome record :=
  let event := <["source_log_event" := SStr event_type]> event in
  match (let* ts := subscript event "timestamp" in
         let* ms := times_1000 ts in
         timestamp_to_datestring ms) with
  | Ret s => Ret (<["_time" := SStr s]> event)
  | Raise TypeError => Ret event
  | Raise e => Raise e
  | OutOfFuel => OutOfFuel
  end.

(** ** [get_all_events] *)

(** One page request of the [while True] loop and the test that follows
    it: [None] when the remote does not report success. *)
Definition request_page (api_version : string) (w : world)
    (event_type : string) (last_run : last_run_dict) (skip limit : Z)
    (is_command : bool) : option (list record) * world :=
  if String.eqb api_version "v1" then
    let '(response, w) :=
      if String.eqb event_type "alert"
      then get_alerts_request_v1 w last_run skip limit is_command
      else get_events_request_v1 w event_type last_run skip limit is_command in
    if bool_decide (resp_status response = SStr "success")
    then (Some (resp_data response), w) else (None, w)
  else
    let '(response, w) :=
      get_events_request_v2 w event_type last_run skip limit is_command in
    if bool_decide (resp_ok response = SInt 1)
    then (Some (resp_result response), w) else (None, w).

(** The [while True] loop, for one event type. *)
Fixpoint fetch_pages (fuel : nat) (api_version : string) (w : world)
    (event_type : string) (last_run : last_run_dict) (limit : Z)
    (is_command : bool) (events : list record) (skip : Z)
    : outcome (list record * world) :=
  match fuel with
  | O => OutOfFuel
  | S fuel =>
      match request_page api_version w event_type last_run skip limit is_command with
      | (None, w) => Ret (events, w)
      | (Some results, w) =>
          let events := events ++ results in
          let skip := next_skip skip results in
          if stop_paging events results then Ret (events, w)
          else fetch_pages fuel api_version w event_type last_run limit
                 is_command events skip
      end
  end.

(** The body of [for event_type in ALL_SUPPORTED_EVENT_TYPES], on the
    locals [events_result] and [new_last_run] and the world. *)
Definition event_type_iter (fuel : nat) (api_version : string)
    (last_run : last_run_dict) (limit : Z) (is_command : bool)
    (acc : list record * last_run_dict * world) (event_type : string)
    : outcome (list record * last_run_dict * world) :=
  let '(events_result, new_last_run, w) := acc in
  let* (events, w) :=
    fetch_pages fuel api_version w event_type last_run limit is_command [] 0 in
  match events with
  | [] => Ret (events_result, new_last_run, w)
  | _ :: _ =>
      let* (final_events, partial_last_run) :=
        dedup_by_id last_run events event_type limit in
      let new_last_run := partial_last_run ∪ new_last_run in
      let* _ := subscript new_last_run event_type in
      let* _ := subscript new_last_run (ids_key event_type) in
      let* final_events :=
        mapM (fun event => populate_parsing_rule_fields event event_type)
             final_events in
      Ret (events_result ++ final_events, new_last_run, w)
  end.

Definition get_all_events (fuel : nat) (w : world) (last_run : last_run_dict)
    (limit : option Z) (api_version : string) (is_command : bool)
    : outcome (list record * last_run_dict * world) :=
  let limit := default MAX_EVENTS_PAGE_SIZE limit in
  foldM (event_type_iter fuel api_version last_run limit is_command)
        ALL_SUPPORTED_EVENT_TYPES ([], ∅, w).

(** ** Commands *)

Definition fetch_events_command (fuel : nat) (w : world) (api_version : string)
    (last_run : last_run_dict) (max_fetch : option Z) (is_command : bool)
    : outcome (list record * last_run_dict * world) :=
  get_all_events fuel w last_run max_fetch api_version is_command.

(** [get_events_command] up to the list of events it hands to the table
    renderer; [limit_arg] is [arg_to_number(args.get('limit'))]. *)
Definition get_events_command (fuel : nat) (w : world) (limit_arg : option Z)
    (last_run : last_run_dict) (api_version : string) (is_command : bool)
    : outcome (list record * world) :=
  let limit :=
    match limit_arg with
    | Some n => if n =? 0 then 50 else n
    | None => 50
    end in
  let* (events, _, w) :=
    get_all_events fuel w last_run (Some limit) api_version is_command in
  let* events :=
    mapM (fun event : record =>
            let* ts := subscript event "timestamp" in
            let* ms := times_1000 ts in
            let* s := timestamp_to_datestring ms in
            Ret (<["timestamp" := SStr s]> event))
         events in
  Ret (events, w).

(** ** The first-fetch loop of [main] and one scheduled fetch *)

(** [first_fetch] is the configured first-fetch time as [arg_to_datetime]
    resolves it, in seconds. *)
Definition first_fetch_iter (first_fetch : Z) (last_run : last_run_dict)
    (event_type : string) : last_run_dict :=
  if truthy (last_run_get last_run event_type) then last_run
  else
    let last_run_id_key := ids_key event_type in
    let last_run := <[event_type := Atom (SInt first_fetch)]> last_run in
    <[last_run_id_key := default (PyList []) (last_run !! last_run_id_key)]> last_run.

Definition first_fetch_init (first_fetch : Z) (last_run : last_run_dict)
    : last_run_dict :=
  foldl (first_fetch_iter first_fetch) last_run ALL_SUPPORTED_EVENT_TYPES.


End Collector.

(** ** What [dedup_by_id] computes, as functions of the truncated batch *)

(** The record's timestamp equals the saved one: the first branch of the
    loop body. *)
Definition is_tie (saved : pyobj) (event : record) : bool :=
  py_eq (get event "timestamp") saved.

(** The record as the loop hands it on, after [event['event_id'] = event_id]. *)
Definition with_event_id (event : record) : record :=
  <["event_id" := get event "_id"]> event.

(** The records appended to [new_events] over the batch [l], starting from
    the identifier set [ids]. *)
Fixpoint delivered (saved : pyobj) (ids : gset scalar) (l : list record)
    : list record :=
  match l with
  | [] => []
  | event :: l' =>
      if is_tie saved event then
        if bool_decide (get event "_id" ∈ ids) then delivered saved ids l'
        else with_event_id event :: delivered saved ({[get event "_id"]} ∪ ids) l'
      else with_event_id event :: delivered saved ids l'
  end.

(** The records of [l] whose timestamp differs from the saved one. *)
Definition differing (saved : pyobj) (l : list record) : list record :=
  List.filter (fun event => negb (is_tie saved event)) l.

Definition ids_of (l : list record) : list scalar :=
  map (fun event : record => get event "_id") l.

(** [last_run_ids] after the batch: the identifiers of the ties joined it. *)
Definition seen_ids (saved : pyobj) (ids : gset scalar) (l : list record)
    : gset scalar :=
  list_to_set (ids_of (List.filter (is_tie saved) l)) ∪ ids.

(** The mapping [dedup_by_id] returns for the truncated batch [l]. *)
Definition checkpoint_after (event_type : string) (saved : pyobj)
    (ids : gset scalar) (l : list record) : last_run_dict :=
  match l with
  | [] => ∅
  | _ :: _ =>
      <[ids_key event_type :=
          match ids_of (differing saved l) with
          | [] => PySet (seen_ids saved ids l)
          | i :: n => PyList (i :: n)
          end]>
        (match last (differing saved l) with
         | Some event => <[event_type := Atom (get event "timestamp")]> ∅
         | None => ∅
         end)
  end.

Arguments is_tie : simpl never.
Arguments with_event_id : simpl never.
Arguments get : simpl never.

(** ** Fixtures for the worked examples *)

(** A record with an identifier and a timestamp, as the remote sends it. *)
Definition mk_record (id : string) (timestamp : Z) : record :=
  <["_id" := SStr id]> (<["timestamp" := SInt timestamp]> ∅).

(** A last run holding one checkpoint: a timestamp and a list of ids. *)
Definition mk_last_run (event_type : string) (timestamp : Z)
    (ids : list scalar) : last_run_dict :=
  <[event_type := Atom (SInt timestamp)]> (<[ids_key event_type := PyList ids]> ∅).

(** The property of a checkpoint that every retained identifier belongs to
    a record of the batch observed at exactly the checkpoint's timestamp. *)
Definition ids_only_at_last_timestamp (results : list record)
    (event_type : string) (new_last_run : last_run_dict) : Prop :=
  ∀ timestamp o ids id,
    new_last_run !! event_type = Some (Atom timestamp) →
    new_last_run !! ids_key event_type = Some o →
    py_set o = Ret ids →
    id ∈ ids →
    ∃ event, event ∈ results ∧ get event "_id" = id
             ∧ get event "timestamp" = timestamp.

(** A stand-in for [timestamp_to_datestring] in the worked examples: a date
    string for an integer, [TypeError] for [None], [ValueError] for a
    string. *)
Definition datestring_stub (a : scalar) : outcome string :=
  match a with
  | SInt _ => Ret "1970-01-01T00:00:00Z"
  | SNone => Raise TypeError
  | SStr _ => Raise ValueError
  end.

Definition ok_response (page : list record) : response :=
  {| resp_status := SStr "success"; resp_ok := SInt 1;
     resp_data := page; resp_result := page |}.

Definition rejected_response : response :=
  {| resp_status := SStr "error"; resp_ok := SInt 0;
     resp_data := []; resp_result := [] |}.

(** A remote of the v2 dialect that answers every request for an event type
    with the page the script holds for it, whatever the offset, and rejects
    the requests the script has no page for. *)
Definition scripted_remote (script : list (string * list record))
    (w : unit) (r : request) : response * unit :=
  (match list_find (fun entry => "events/data/" +:+ entry.1 = url_suffix r) script with
   | Some (_, (_, page)) => ok_response page
   | None => rejected_response
   end, w).

Definition epoch (w : unit) : Z := 0.

(** The checkpoint of an event type is carried over from one state to the
    next. *)
Definition checkpoint_unchanged (last_run new_last_run : last_run_dict)
    (event_type : string) : Prop :=
  new_last_run !! event_type = last_run !! event_type
  ∧ new_last_run !! ids_key event_type = last_run !! ids_key event_type.

(** A remote of the v2 dialect that serves a log, newest first, honouring
    the offset and the limit of each request. *)
Definition paged_remote (log : list record) (w : unit) (r : request)
    : response * unit :=
  (ok_response (firstn (Z.to_nat (req_limit r)) (skipn (Z.to_nat (req_skip r)) log)), w).

(** [n] records numbered from 0, all at the same timestamp. *)
Definition numbered (n : nat) : list record :=
  map (fun i => <["_id" := SInt (Z.of_nat i)]> (<["timestamp" := SInt 7]> ∅))
      (seq 0 n).

(** A page of exactly [MAX_EVENTS_PAGE_SIZE] records. *)
Definition full_page : list record :=
  repeat (mk_record "e" 7) (Z.to_nat MAX_EVENTS_PAGE_SIZE).


(** A delivered record as [get_all_events] returns it: with the identifier
    copied under [event_id], the event type under [source_log_event] and
    the date string under [_time]. *)
Definition parsed (event_type : string) (time : string) (event : record)
    : record :=
  <["_time" := SStr time]>
    (<["source_log_event" := SStr event_type]> (with_event_id event)).

(** ** Successive fetches of one event type against an honest remote *)

(** The timestamp of a record as an integer, and whether it has one. *)
Definition time_of (event : record) : Z :=
  match get event "timestamp" with
  | SInt z => z
  | _ => 0
  end.

Definition has_time (event : record) : Prop :=
  get event "timestamp" = SInt (time_of event).

(** The remote the no-duplicate guarantee assumes.  It keeps a log of
    events, oldest first, and answers a request whose [starttime] is the
    saved timestamp with the logged events that are not older, newest
    first. *)
Definition not_older (starttime : pyobj) (event : record) : bool :=
  match starttime with
  | Atom (SInt since) => since <=? time_of event
  | _ => true
  end.

Definition remote_answer (log : list record) (starttime : pyobj)
    : list record :=
  rev (List.filter (not_older starttime) log).




(** ** Fixtures and drivers for the further properties *)

(** A page of twice [MAX_EVENTS_PAGE_SIZE] records. *)
Definition oversized_page : list record :=
  repeat (mk_record "e" 7) (Z.to_nat (2 * MAX_EVENTS_PAGE_SIZE)).

(** A record as a cycle hands it on: its identifier copied under
    [event_id], and the name of a supported event type under
    [source_log_event]. *)
Definition well_tagged (event : record) : Prop :=
  event !! "event_id" = Some (get event "_id")
  ∧ ∃ event_type, event_type ∈ ALL_SUPPORTED_EVENT_TYPES
                  ∧ event !! "source_log_event" = Some (SStr event_type).

(** A remote that holds one audit record and two page records, and a last
    run with a checkpoint for both event types. *)
Definition two_types_remote : unit → request → response * unit :=
  scripted_remote [("audit", [mk_record "a1" 10]);
                   ("page", [mk_record "p2" 21; mk_record "p1" 20])].

Definition two_types_last_run : last_run_dict :=
  <["page" := Atom (SInt 20)]>
    (<["page-ids" := PyList [SStr "p1"]]> (mk_last_run "audit" 5 [])).

(** The remote as a transport of the v2 dialect: it answers the requests
    for [event_type] with the page that the offset and the limit cut out of
    its answer, and rejects the requests for the other event types. *)
Definition honest_remote (event_type : string) (log : list record)
    (w : unit) (r : request) : response * unit :=
  (if bool_decide (url_suffix r = "events/data/" +:+ event_type)
   then ok_response
          (firstn (Z.to_nat (req_limit r))
             (skipn (Z.to_nat (req_skip r)) (remote_answer log (starttime r))))
   else rejected_response, w).

(** Successive cycles.  Before each cycle the events of [arrived] join the
    log; [cycle] is run on the last run and the log, and the mapping it
    returns is the last run of the next cycle.  The result lists what each
    cycle delivered. *)
Fixpoint run_cycles {B}
    (cycle : last_run_dict → list record → outcome (B * last_run_dict))
    (last_run : last_run_dict) (log : list record)
    (arrivals : list (list record)) : outcome (list B * last_run_dict) :=
  match arrivals with
  | [] => Ret ([], last_run)
  | arrived :: arrivals' =>
      let log := log ++ arrived in
      let* (batch, new_last_run) := cycle last_run log in
      let* (rest, last) := run_cycles cycle new_last_run log arrivals' in
      Ret (batch :: rest, last)
  end.

(** A whole cycle: [get_all_events], as a scheduled fetch runs it, against
    the remote that holds [log] for [event_type]. *)
Definition fetch_cycle (timestamp_to_datestring : scalar → outcome string)
    (fuel : nat) (event_type : string) (limit : option Z)
    (last_run : last_run_dict) (log : list record)
    : outcome (list record * last_run_dict) :=
  let* (events, new_last_run, _) :=
    get_all_events epoch (honest_remote event_type log) timestamp_to_datestring
      fuel () last_run limit "v2" false in
  Ret (events, new_last_run).

(** The date string of a record's timestamp, and the record as a cycle
    delivers it. *)
Definition date_of (timestamp_to_datestring : scalar → outcome string)
    (event : record) : string :=
  match timestamp_to_datestring (SInt (time_of event * 1000)) with
  | Ret s => s
  | _ => ""
  end.

Definition delivered_record (timestamp_to_datestring : scalar → outcome string)
    (event_type : string) (event : record) : record :=
  parsed event_type (date_of timestamp_to_datestring event) event.

(** A record whose timestamp is [None]. *)
Definition null_time_record : record :=
  <["timestamp" := SNone]> (<["_id" := SStr "x"]> ∅).

(** ** [test_module] and [main] *)

(** What [main] hands to [return_results] or [return_error]. *)
Inductive reply :=
  | ReplyOk
  | ReplyEvents (events : list record)
  | ReplyError (e : exn).

(** What one run of [main] does to the host: the reply, the events
    [send_events_to_xsiam] was called with, the dictionary given to
    [demisto.setLastRun]. *)
Record effects := {
  returned : option reply;
  sent : option (list record);
  saved : option last_run_dict
}.

Section Entry.

Context {world : Type}.
Variable now : world -> Z.
Variable http_request : world -> request -> response * world.
Variable timestamp_to_datestring : scalar -> outcome string.

(** The sink: [None] when it accepts the events, the exception it raises
    otherwise. *)
Variable send_events_to_xsiam : list record -> option exn.

Definition test_module (fuel : nat) (w : world) (api_version : string)
    (last_run : last_run_dict) (max_fetch : option Z)
    : outcome (string * world) :=
  let* (_, _, w) :=
    fetch_events_command now http_request timestamp_to_datestring fuel w
      api_version last_run max_fetch true in
  Ret ("ok", w).

(** The [except] clause of [main]: [return_error] after the calls already
    made. *)
Definition failed (sent : option (list record)) (e : exn) : effects :=
  {| returned := Some (ReplyError e); sent := sent; saved := None |}.

(** [main] from [demisto.getLastRun()] on: [stored] is the stored last
    run, [first_fetch] the configured start as epoch seconds, [command] is
    [demisto.command()], [limit_arg] and [should_push_events] are the
    arguments of the command as [arg_to_number] and [argToBoolean] read
    them.  [return_results] and [demisto.setLastRun] are taken to succeed. *)
Definition main (fuel : nat) (w : world) (command : string)
    (api_version : string) (first_fetch : Z) (max_fetch : option Z)
    (limit_arg : option Z) (should_push_events : bool)
    (stored : last_run_dict) : outcome effects :=
  let last_run := first_fetch_init first_fetch stored in
  if String.eqb command "test-module" then
    match test_module fuel w api_version last_run max_fetch with
    | Ret _ => Ret {| returned := Some ReplyOk; sent := None; saved := None |}
    | Raise e => Ret (failed None e)
    | OutOfFuel => OutOfFuel
    end
  else if String.eqb command "netskope-get-events" then
    match get_events_command now http_request timestamp_to_datestring fuel w
            limit_arg last_run api_version true with
    | Ret (events, _) =>
        if should_push_events then
          match send_events_to_xsiam events with
          | None => Ret {| returned := Some (ReplyEvents events);
                           sent := Some events; saved := None |}
          | Some e => Ret (failed (Some events) e)
          end
        else Ret {| returned := Some (ReplyEvents events);
                    sent := None; saved := None |}
    | Raise e => Ret (failed None e)
    | OutOfFuel => OutOfFuel
    end
  else if String.eqb command "fetch-events" then
    match fetch_events_command now http_request timestamp_to_datestring fuel w
            api_version last_run max_fetch false with
    | Ret (events, new_last_run, _) =>
        match send_events_to_xsiam events with
        | None => Ret {| returned := None; sent := Some events;
                         saved := Some new_last_run |}
        | Some e => Ret (failed (Some events) e)
        end
    | Raise e => Ret (failed None e)
    | OutOfFuel => OutOfFuel
    end
  else Ret {| returned := None; sent := None; saved := None |}.

End Entry.

(** * Properties *)

(** ** The error monad *)

Lemma foldM_app {A B} (f : A -> B -> outcome A) (l1 l2 : list B) (a : A) :
  foldM f (l1 ++ l2) a = let* a' := foldM f l1 a in foldM f l2 a'.
Proof.
  revert a. induction l1 as [|x l1 IH]; intros a; simpl; [done|].
  destruct (f a x); simpl; auto.
Qed.

(** ** Keys of the last-run dictionary *)

Lemma length_string_app (s1 s2 : string) :
  String.length (s1 +:+ s2) = (String.length s1 + String.length s2)%nat.
Proof. induction s1 as [|c s1 IH]; simpl; [done|]. by rewrite IH. Qed.

Lemma ids_key_ne (event_type : string) : ids_key event_type ≠ event_type.
Proof.
  intros H. apply (f_equal String.length) in H.
  unfold ids_key in H. rewrite length_string_app in H. simpl in H. lia.
Qed.

(** ** [dedup_by_id] as a function of the truncated batch *)

Lemma seen_ids_nil saved ids : seen_ids saved ids [] = ids.
Proof. unfold seen_ids. simpl. apply (left_id_L ∅ (∪)). Qed.

Lemma seen_ids_cons saved ids e l :
  seen_ids saved ids (e :: l) =
  seen_ids saved (if is_tie saved e then {[get e "_id"]} ∪ ids else ids) l.
Proof.
  unfold seen_ids. simpl. destruct (is_tie saved e); simpl; [|done].
  apply set_eq. intros x. set_unfold. tauto.
Qed.

Lemma delivered_app saved ids l1 l2 :
  delivered saved ids (l1 ++ l2) =
  delivered saved ids l1 ++ delivered saved (seen_ids saved ids l1) l2.
Proof.
  revert ids. induction l1 as [|e l1 IH]; intros ids.
  - by rewrite seen_ids_nil.
  - rewrite seen_ids_cons. simpl. destruct (is_tie saved e) eqn:Ht.
    + case_bool_decide as Hin.
      * rewrite IH. do 2 f_equal. f_equal.
        apply set_eq. intros x. set_unfold. naive_solver.
      * by rewrite IH.
    + by rewrite IH.
Qed.

Lemma differing_app saved l1 l2 :
  differing saved (l1 ++ l2) = differing saved l1 ++ differing saved l2.
Proof. apply List.filter_app. Qed.

Lemma ids_of_app l1 l2 : ids_of (l1 ++ l2) = ids_of l1 ++ ids_of l2.
Proof. apply map_app. Qed.

Lemma seen_ids_snoc saved ids l e :
  seen_ids saved ids (l ++ [e]) =
  if is_tie saved e then {[get e "_id"]} ∪ seen_ids saved ids l
  else seen_ids saved ids l.
Proof.
  unfold seen_ids. rewrite List.filter_app. simpl.
  destruct (is_tie saved e); rewrite ids_of_app; simpl.
  - rewrite list_to_set_app_L. simpl. set_solver.
  - by rewrite app_nil_r.
Qed.

Lemma last_snoc_differing saved l e :
  last (differing saved (l ++ [e])) =
  if is_tie saved e then last (differing saved l) else Some e.
Proof.
  rewrite differing_app. simpl. destruct (is_tie saved e); simpl.
  - by rewrite app_nil_r.
  - by rewrite last_snoc.
Qed.

Lemma checkpoint_after_cons event_type saved ids e l :
  checkpoint_after event_type saved ids (e :: l) =
  <[ids_key event_type :=
      match ids_of (differing saved (e :: l)) with
      | [] => PySet (seen_ids saved ids (e :: l))
      | i :: n => PyList (i :: n)
      end]>
    (match last (differing saved (e :: l)) with
     | Some event => <[event_type := Atom (get event "timestamp")]> ∅
     | None => ∅
     end).
Proof. reflexivity. Qed.

Lemma checkpoint_after_snoc event_type saved ids l e :
  checkpoint_after event_type saved ids (l ++ [e]) =
  <[ids_key event_type :=
      match ids_of (differing saved (l ++ [e])) with
      | [] => PySet (seen_ids saved ids (l ++ [e]))
      | i :: n => PyList (i :: n)
      end]>
    (if is_tie saved e then checkpoint_after event_type saved ids l
     else <[event_type := Atom (get e "timestamp")]>
            (checkpoint_after event_type saved ids l)).
Proof.
  pose proof (ids_key_ne event_type) as Hne.
  destruct l as [|y l].
  - rewrite app_nil_l, checkpoint_after_cons. unfold differing. simpl.
    by destruct (is_tie saved e).
  - rewrite <- app_comm_cons at 1. rewrite checkpoint_after_cons.
    rewrite app_comm_cons, last_snoc_differing.
    rewrite (checkpoint_after_cons _ _ _ y l).
    destruct (is_tie saved e).
    + by rewrite insert_insert_eq.
    + rewrite (insert_insert_ne _ event_type (ids_key event_type)) by done.
      rewrite insert_insert_eq. f_equal.
      destruct (last (differing saved (y :: l))); [|done].
      by rewrite insert_insert_eq.
Qed.

(** The loop of [dedup_by_id] over a batch [l], from the initial locals. *)
Lemma dedup_loop_spec last_run event_type saved ids l :
  last_run !! event_type = Some saved →
  foldM (dedup_iter last_run event_type) l
    {| new_events := []; new_events_ids := [];
       last_run_ids := ids; new_last_run := ∅ |} =
  Ret {| new_events := delivered saved ids l;
         new_events_ids := ids_of (differing saved l);
         last_run_ids := seen_ids saved ids l;
         new_last_run := checkpoint_after event_type saved ids l |}.
Proof.
  intros Hsaved. induction l as [|e l IH] using rev_ind.
  - simpl. by rewrite seen_ids_nil.
  - rewrite foldM_app, IH. simpl.
    unfold dedup_iter, subscript. rewrite Hsaved. simpl.
    rewrite checkpoint_after_snoc, delivered_app, seen_ids_snoc,
      differing_app, ids_of_app.
    fold (is_tie saved e). simpl. unfold ids_to_save.
    destruct (is_tie saved e); simpl.
    + rewrite !app_nil_r. case_bool_decide as Hin; simpl.
      * rewrite app_nil_r. do 2 f_equal.
        -- apply set_eq. intros x. set_unfold. naive_solver.
        -- destruct (ids_of (differing saved l)); [|done].
           do 2 f_equal. apply set_eq. intros x. set_unfold. naive_solver.
      * by destruct (ids_of (differing saved l)).
    + by destruct (ids_of (differing saved l) ++ [get e "_id"]).
Qed.

(** [dedup_by_id] returns whenever the last run holds a timestamp for the
    event type and an iterable (or nothing) under the ids key, and what it
    returns is [delivered] and [checkpoint_after] of the truncated batch. *)
Lemma dedup_by_id_spec last_run results event_type limit saved ids :
  last_run !! event_type = Some saved →
  py_set (default (PyList []) (last_run !! ids_key event_type)) = Ret ids →
  dedup_by_id last_run results event_type limit =
  Ret (delivered saved ids (slice_to limit (rev results)),
       checkpoint_after event_type saved ids (slice_to limit (rev results))).
Proof.
  intros Hsaved Hids. unfold dedup_by_id. rewrite Hids. simpl.
  by rewrite (dedup_loop_spec _ _ saved).
Qed.




(** ** Reconciling one batch *)



Lemma is_tie_with_event_id saved e :
  is_tie saved (with_event_id e) = is_tie saved e.
Proof.
  unfold is_tie, with_event_id, get. by rewrite lookup_insert_ne.
Qed.

(** Every record whose timestamp differs from the saved one is delivered,
    as often as the batch holds it and in the order of the batch. *)
Lemma differing_delivered saved ids l :
  differing saved (delivered saved ids l) =
  map with_event_id (differing saved l).
Proof.
  revert ids. induction l as [|e l IH]; intros ids; [done|].
  unfold differing in *. simpl.
  destruct (is_tie saved e) eqn:Ht; simpl.
  - case_bool_decide; [apply IH|]. simpl.
    rewrite is_tie_with_event_id, Ht. simpl. apply IH.
  - rewrite is_tie_with_event_id, Ht. simpl. by rewrite IH.
Qed.

Lemma delivered_cons_differing saved ids e l :
  is_tie saved e = false →
  delivered saved ids (e :: l) = with_event_id e :: delivered saved ids l.
Proof. intros Ht. simpl. by rewrite Ht. Qed.

(** C10: within one call the identifier is looked at only for records whose
    timestamp equals the saved one.  Two records of the truncated batch that
    share an identifier and a timestamp other than the saved one are both
    delivered; more generally the delivered records whose timestamp differs
    from the saved one are exactly those of the truncated batch, repeats
    included. *)
Theorem C10_same_id_delivered_twice (last_run : last_run_dict)
    (results : list record) (event_type : string) (limit : Z)
    (saved : pyobj) (ids : gset scalar)
    (pre mid post : list record) (e1 e2 : record) :
  last_run !! event_type = Some saved →
  py_set (default (PyList []) (last_run !! ids_key event_type)) = Ret ids →
  slice_to limit (rev results) = pre ++ e1 :: mid ++ e2 :: post →
  get e1 "_id" = get e2 "_id" →
  get e1 "timestamp" = get e2 "timestamp" →
  is_tie saved e1 = false →
  ∃ final_events new_last_run d1 d2 d3,
    dedup_by_id last_run results event_type limit = Ret (final_events, new_last_run)
    ∧ final_events = d1 ++ with_event_id e1 :: d2 ++ with_event_id e2 :: d3
    ∧ differing saved final_events =
      map with_event_id (differing saved (slice_to limit (rev results))).
Proof.
  intros Hsaved Hids Hl Hid Hts Ht1.
  assert (Ht2 : is_tie saved e2 = false).
  { unfold is_tie in *. by rewrite <- Hts. }
  rewrite (dedup_by_id_spec _ _ _ _ saved ids) by done.
  eexists _, _, _, _, _. split; [reflexivity|]. split.
  - rewrite Hl, delivered_app, delivered_cons_differing by done.
    rewrite delivered_app, delivered_cons_differing by done.
    reflexivity.
  - apply differing_delivered.
Qed.

Lemma C10_same_id_delivered_twice_witness :
  ∃ final_events new_last_run d1 d2 d3,
    dedup_by_id (mk_last_run "audit" 100 [SStr "a"])
      [mk_record "x" 101; mk_record "x" 101; mk_record "a" 100] "audit" 10
    = Ret (final_events, new_last_run)
    ∧ final_events = d1 ++ with_event_id (mk_record "x" 101)
                        :: d2 ++ with_event_id (mk_record "x" 101) :: d3
    ∧ differing (Atom (SInt 100)) final_events =
      map with_event_id
        (differing (Atom (SInt 100))
           (slice_to 10 (rev [mk_record "x" 101; mk_record "x" 101;
                              mk_record "a" 100]))).
Proof.
  apply (C10_same_id_delivered_twice _ _ _ _ (Atom (SInt 100)) {[SStr "a"]}
           [mk_record "a" 100] [] []);
    compute_done.
Defined.

Lemma differing_nil_all_ties saved l :
  differing saved l = [] → List.filter (is_tie saved) l = l.
Proof.
  unfold differing. induction l as [|e l IH]; simpl; [done|].
  destruct (is_tie saved e); simpl; [|done]. intros H. by rewrite IH.
Qed.

Lemma lookup_checkpoint_after_ids event_type saved ids l :
  l ≠ [] →
  checkpoint_after event_type saved ids l !! ids_key event_type =
  Some (match ids_of (differing saved l) with
        | [] => PySet (seen_ids saved ids l)
        | i :: n => PyList (i :: n)
        end).
Proof.
  destruct l as [|e l]; [done|]. intros _.
  rewrite checkpoint_after_cons. apply lookup_insert_eq.
Qed.

Lemma lookup_checkpoint_after_timestamp event_type saved ids l :
  checkpoint_after event_type saved ids l !! event_type =
  (fun event : record => Atom (get event "timestamp")) <$> last (differing saved l).
Proof.
  pose proof (ids_key_ne event_type) as Hne.
  destruct l as [|e l]; [done|].
  rewrite checkpoint_after_cons, lookup_insert_ne by done.
  destruct (last (differing saved (e :: l))); simpl.
  - apply lookup_insert_eq.
  - apply lookup_empty.
Qed.

Lemma lookup_checkpoint_after_other event_type saved ids l k :
  k ≠ event_type → k ≠ ids_key event_type →
  checkpoint_after event_type saved ids l !! k = None.
Proof.
  intros H1 H2. destruct l as [|e l]; [done|].
  rewrite checkpoint_after_cons, lookup_insert_ne by done.
  destruct (last (differing saved (e :: l))).
  - by rewrite lookup_insert_ne.
  - done.
Qed.

(** C2, as the code has it: the identifiers [dedup_by_id] retains are, as
    soon as one record of the truncated batch has a timestamp other than the
    saved one, the identifiers of all those records, in a fresh list that
    holds none of the prior identifiers, under the timestamp of the last of
    them; when the truncated batch holds ties only, they are the prior set
    joined with the identifiers of the batch, and no timestamp is written. *)
Theorem C2_retained_ids (last_run : last_run_dict) (results : list record)
    (event_type : string) (limit : Z) (saved : pyobj) (ids : gset scalar) :
  last_run !! event_type = Some saved →
  py_set (default (PyList []) (last_run !! ids_key event_type)) = Ret ids →
  ∃ final_events new_last_run,
    dedup_by_id last_run results event_type limit = Ret (final_events, new_last_run)
    ∧ let l := slice_to limit (rev results) in
      (differing saved l ≠ [] →
         new_last_run !! ids_key event_type = Some (PyList (ids_of (differing saved l)))
         ∧ new_last_run !! event_type =
             (fun event : record => Atom (get event "timestamp")) <$> last (differing saved l))
      ∧ (l ≠ [] → differing saved l = [] →
         new_last_run !! ids_key event_type = Some (PySet (list_to_set (ids_of l) ∪ ids))
         ∧ new_last_run !! event_type = None)
      ∧ (l = [] → new_last_run = ∅).
Proof.
  intros Hsaved Hids.
  rewrite (dedup_by_id_spec _ _ _ _ saved ids) by done.
  eexists _, _. split; [reflexivity|]. cbv zeta.
  set (l := slice_to limit (rev results)). repeat split.
  - assert (l ≠ []) as Hl by (intros E; by rewrite E in H).
    rewrite lookup_checkpoint_after_ids by done.
    destruct (differing saved l) eqn:E; done.
  - apply lookup_checkpoint_after_timestamp.
  - rewrite lookup_checkpoint_after_ids by done. rewrite H0. simpl.
    unfold seen_ids. by rewrite differing_nil_all_ties.
  - rewrite lookup_checkpoint_after_timestamp, H0. done.
  - intros ->. done.
Qed.

Lemma C2_retained_ids_witness :
  ∃ final_events new_last_run,
    dedup_by_id (mk_last_run "audit" 100 [SStr "a"])
      [mk_record "c" 102; mk_record "b" 101] "audit" 10
    = Ret (final_events, new_last_run)
    ∧ let l := slice_to 10 (rev [mk_record "c" 102; mk_record "b" 101]) in
      (differing (Atom (SInt 100)) l ≠ [] →
         new_last_run !! ids_key "audit" =
           Some (PyList (ids_of (differing (Atom (SInt 100)) l)))
         ∧ new_last_run !! "audit" =
             (fun event : record => Atom (get event "timestamp"))
               <$> last (differing (Atom (SInt 100)) l))
      ∧ (l ≠ [] → differing (Atom (SInt 100)) l = [] →
         new_last_run !! ids_key "audit" =
           Some (PySet (list_to_set (ids_of l) ∪ {[SStr "a"]}))
         ∧ new_last_run !! "audit" = None)
      ∧ (l = [] → new_last_run = ∅).
Proof.
  apply (C2_retained_ids _ _ _ _ (Atom (SInt 100)) {[SStr "a"]});
    compute_done.
Defined.

(** The invariant of C2 fails on the code: from the checkpoint
    {lastTimestamp = 100, ids = []} the batch (c, 102), (b, 101) leaves the
    identifier of b, seen at 101, under the timestamp 102. *)
Lemma C2_counterexample :
  ∃ final_events new_last_run,
    dedup_by_id (mk_last_run "audit" 100 [])
      [mk_record "c" 102; mk_record "b" 101] "audit" 10
    = Ret (final_events, new_last_run)
    ∧ new_last_run !! "audit" = Some (Atom (SInt 102))
    ∧ new_last_run !! "audit-ids" = Some (PyList [SStr "b"; SStr "c"])
    ∧ ¬ ids_only_at_last_timestamp
          [mk_record "c" 102; mk_record "b" 101] "audit" new_last_run.
Proof.
  eexists _, _. split; [reflexivity|].
  split; [compute_done|]. split; [compute_done|].
  intros H.
  destruct (H (SInt 102) (PyList [SStr "b"; SStr "c"])
              (list_to_set [SStr "b"; SStr "c"]) (SStr "b"))
    as (e & He & Hid & Hts); [compute_done..|].
  apply list_elem_of_In in He. simpl in He.
  destruct He as [<- | [<- | []]];
    [revert Hid; compute_done | revert Hts; compute_done].
Qed.

(** C6: the saved timestamp is replaced whenever a record's timestamp
    differs from it, not only when it is newer.  From the checkpoint
    {lastTimestamp = 100, ids = []} the one-record batch (x, 50) sets the
    new checkpoint's timestamp to 50, behind the prior one. *)
Theorem C6_older_record_sets_timestamp :
  dedup_by_id (mk_last_run "audit" 100 []) [mk_record "x" 50] "audit" 10 =
  Ret ([with_event_id (mk_record "x" 50)],
       <[ids_key "audit" := PyList [SStr "x"]]> (<["audit" := Atom (SInt 50)]> ∅)).
Proof. compute_done. Qed.

(** ** One fetch cycle *)

Lemma foldM_inv {A B} (P : A → Prop) (f : A → B → outcome A) l a a' :
  (∀ a x a', P a → f a x = Ret a' → P a') →
  P a → foldM f l a = Ret a' → P a'.
Proof.
  intros Hstep. revert a. induction l as [|x l IH]; intros a Ha; simpl.
  - by intros [= <-].
  - destruct (f a x) eqn:E; simpl; [|done..]. eauto.
Qed.

(** [dedup_by_id] writes under the two keys of its event type only. *)
Lemma dedup_by_id_keys last_run results event_type limit final_events partial k :
  dedup_by_id last_run results event_type limit = Ret (final_events, partial) →
  k ≠ event_type → k ≠ ids_key event_type → partial !! k = None.
Proof.
  unfold dedup_by_id. intros H Hk1 Hk2.
  destruct (py_set _) as [ids| |]; simpl in H; [|done..].
  destruct (foldM _ _ _) as [st| |] eqn:E; simpl in H; [|done..].
  injection H as <- <-.
  revert E. apply (foldM_inv (fun st => new_last_run st !! k = None));
    [|done].
  clear st. intros st e st' Hst. unfold dedup_iter.
  destruct (subscript last_run event_type); simpl; [|done..].
  intros [= <-]. simpl. rewrite lookup_insert_ne by done.
  repeat case_match; simpl; rewrite ?lookup_insert_ne by done; done.
Qed.

Section CycleFacts.

Context {world : Type}.
Variable now : world -> Z.
Variable http_request : world -> request -> response * world.
Variable timestamp_to_datestring : scalar -> outcome string.

Local Notation iter :=
  (event_type_iter now http_request timestamp_to_datestring).

(** Processing one event type leaves the other keys of [new_last_run]
    alone. *)
Lemma event_type_iter_frame fuel api_version last_run limit is_command
    events_result new_last_run w event_type events_result' new_last_run' w' k :
  iter fuel api_version last_run limit is_command
    (events_result, new_last_run, w) event_type
    = Ret (events_result', new_last_run', w') →
  k ≠ event_type → k ≠ ids_key event_type →
  new_last_run' !! k = new_last_run !! k.
Proof.
  unfold iter, event_type_iter. intros H Hk1 Hk2.
  destruct (fetch_pages _ _ _ _ _ _ _ _ _ _ _) as [[events w1]| |];
    simpl in H; [|done..].
  destruct events as [|e events]; [by injection H as <- <- <-|].
  destruct (dedup_by_id _ _ _ _) as [[final_events partial]| |] eqn:Hd;
    simpl in H; [|done..].
  destruct (subscript _ event_type); simpl in H; [|done..].
  destruct (subscript _ (ids_key event_type)); simpl in H; [|done..].
  destruct (mapM _ _); simpl in H; [|done..].
  injection H as <- <- <-.
  rewrite lookup_union_r; [done|]. by eapply dedup_by_id_keys.
Qed.

Lemma foldM_iter_frame fuel api_version last_run limit is_command l
    acc acc' k :
  foldM (iter fuel api_version last_run limit is_command) l acc = Ret acc' →
  (∀ event_type, event_type ∈ l → k ≠ event_type ∧ k ≠ ids_key event_type) →
  acc'.1.2 !! k = acc.1.2 !! k.
Proof.
  revert acc. induction l as [|et l IH]; intros acc; simpl.
  - by intros [= <-].
  - intros H Hk. destruct (iter _ _ _ _ _ acc et) as [acc1| |] eqn:E;
      simpl in H; [|done..].
    rewrite (IH _ H) by (intros; apply Hk; set_solver).
    destruct acc as [[er nlr] w], acc1 as [[er1 nlr1] w1]. simpl.
    eapply event_type_iter_frame; [exact E|apply Hk; set_solver..].
Qed.

(** The keys of one supported event type are no key of another. *)
Lemma supported_keys_apart pre event_type post other :
  ALL_SUPPORTED_EVENT_TYPES = pre ++ event_type :: post →
  other ∈ pre ++ post →
  (event_type ≠ other ∧ event_type ≠ ids_key other)
  ∧ (ids_key event_type ≠ other ∧ ids_key event_type ≠ ids_key other).
Proof.
  unfold ALL_SUPPORTED_EVENT_TYPES. intros Hsplit Hin.
  do 5 (destruct pre as [|? pre]; simplify_eq/=;
        [set_unfold;
         repeat (destruct Hin as [-> | Hin]; [compute_done|]); done|]).
  by destruct pre.
Qed.


Lemma get_all_events_split fuel w last_run limit api_version is_command
    pre event_type post :
  ALL_SUPPORTED_EVENT_TYPES = pre ++ event_type :: post →
  get_all_events now http_request timestamp_to_datestring fuel w last_run
    limit api_version is_command =
  let* acc1 :=
    foldM (iter fuel api_version last_run
             (default MAX_EVENTS_PAGE_SIZE limit) is_command)
          pre ([], ∅, w) in
  let* acc2 :=
    iter fuel api_version last_run (default MAX_EVENTS_PAGE_SIZE limit)
      is_command acc1 event_type in
  foldM (iter fuel api_version last_run
           (default MAX_EVENTS_PAGE_SIZE limit) is_command) post acc2.
Proof.
  intros Hsplit. unfold get_all_events. rewrite Hsplit, foldM_app.
  reflexivity.
Qed.

(** Before an event type is processed, [new_last_run] holds nothing under
    its keys. *)
Lemma prefix_keys_absent fuel api_version last_run limit is_command w
    pre event_type post acc1 :
  ALL_SUPPORTED_EVENT_TYPES = pre ++ event_type :: post →
  foldM (iter fuel api_version last_run limit is_command) pre ([], ∅, w)
    = Ret acc1 →
  acc1.1.2 !! event_type = None ∧ acc1.1.2 !! ids_key event_type = None.
Proof.
  intros Hsplit Hpre.
  split; rewrite (foldM_iter_frame _ _ _ _ _ _ _ _ _ Hpre); try done;
    intros other Hin;
    apply (supported_keys_apart pre event_type post other Hsplit);
    set_solver.
Qed.

(** C4, as the code has it: an event type that accumulates no records in
    a cycle has no entry in the state [get_all_events] returns, neither a
    timestamp nor an ids entry; its prior checkpoint is not carried over. *)
Theorem C4_silent_event_type_absent (fuel : nat) (w : world)
    (last_run : last_run_dict) (limit : option Z) (api_version : string)
    (is_command : bool) (pre post : list string) (event_type : string)
    (events_result1 : list record) (new_last_run1 : last_run_dict)
    (w1 w2 : world)
    (events_result : list record) (new_last_run : last_run_dict) (w' : world) :
  ALL_SUPPORTED_EVENT_TYPES = pre ++ event_type :: post →
  foldM (iter fuel api_version last_run (default MAX_EVENTS_PAGE_SIZE limit)
           is_command) pre ([], ∅, w)
    = Ret (events_result1, new_last_run1, w1) →
  fetch_pages now http_request fuel api_version w1 event_type last_run
    (default MAX_EVENTS_PAGE_SIZE limit) is_command [] 0 = Ret ([], w2) →
  get_all_events now http_request timestamp_to_datestring fuel w last_run
    limit api_version is_command = Ret (events_result, new_last_run, w') →
  new_last_run !! event_type = None
  ∧ new_last_run !! ids_key event_type = None.
Proof.
  intros Hsplit Hpre Hfetch Hall.
  rewrite (get_all_events_split _ _ _ _ _ _ _ _ _ Hsplit), Hpre in Hall.
  simpl in Hall. rewrite Hfetch in Hall. simpl in Hall.
  destruct (prefix_keys_absent _ _ _ _ _ _ _ _ _ _ Hsplit Hpre) as [H1 H2].
  simpl in H1, H2.
  split.
  - rewrite (foldM_iter_frame _ _ _ _ _ _ _ _ _ Hall); [done|].
    intros other Hin.
    apply (supported_keys_apart pre event_type post other Hsplit). set_solver.
  - rewrite (foldM_iter_frame _ _ _ _ _ _ _ _ _ Hall); [done|].
    intros other Hin.
    apply (supported_keys_apart pre event_type post other Hsplit). set_solver.
Qed.


Lemma all_ties_differing_nil saved (events : list record) limit :
  (∀ event, event ∈ events → is_tie saved event = true) →
  differing saved (slice_to limit (rev events)) = [].
Proof.
  intros Hties.
  assert (Forall (fun event => is_tie saved event = true)
            (slice_to limit (rev events))) as Hall.
  { unfold slice_to. destruct (0 <=? limit);
      apply Forall_take, List.Forall_rev, Forall_forall; auto. }
  unfold differing. induction Hall as [|e l He _ IH]; simpl; [done|].
  by rewrite He.
Qed.

Lemma event_type_iter_events fuel api_version last_run limit is_command
    events_result new_last_run w event_type events w2 :
  fetch_pages now http_request fuel api_version w event_type last_run limit
    is_command [] 0 = Ret (events, w2) →
  events ≠ [] →
  iter fuel api_version last_run limit is_command
    (events_result, new_last_run, w) event_type =
  let* (final_events, partial_last_run) :=
    dedup_by_id last_run events event_type limit in
  let new_last_run := partial_last_run ∪ new_last_run in
  let* _ := subscript new_last_run event_type in
  let* _ := subscript new_last_run (ids_key event_type) in
  let* final_events :=
    mapM (fun event => populate_parsing_rule_fields timestamp_to_datestring
                         event event_type) final_events in
  Ret (events_result ++ final_events, new_last_run, w2).
Proof.
  intros Hfetch Hne. unfold event_type_iter. rewrite Hfetch. simpl.
  by destruct events.
Qed.

(** C9, as the code has it: when an event type accumulates at least one
    record and every accumulated record carries the saved timestamp,
    [dedup_by_id] returns a mapping with the ids key and without the
    timestamp key provided the limit lets at least one record through,
    and, whatever the limit, [get_all_events] raises [KeyError] when it
    reads [new_last_run[event_type]]. *)
Theorem C9_all_ties_key_error (fuel : nat) (w : world)
    (last_run : last_run_dict) (limit : option Z) (api_version : string)
    (is_command : bool) (pre post : list string) (event_type : string)
    (acc1 : list record * last_run_dict * world)
    (events : list record) (w2 : world) (saved : pyobj) (ids : gset scalar) :
  ALL_SUPPORTED_EVENT_TYPES = pre ++ event_type :: post →
  foldM (iter fuel api_version last_run (default MAX_EVENTS_PAGE_SIZE limit)
           is_command) pre ([], ∅, w) = Ret acc1 →
  fetch_pages now http_request fuel api_version acc1.2 event_type last_run
    (default MAX_EVENTS_PAGE_SIZE limit) is_command [] 0 = Ret (events, w2) →
  events ≠ [] →
  last_run !! event_type = Some saved →
  py_set (default (PyList []) (last_run !! ids_key event_type)) = Ret ids →
  (∀ event, event ∈ events → is_tie saved event = true) →
  (slice_to (default MAX_EVENTS_PAGE_SIZE limit) (rev events) ≠ [] →
     ∃ final_events partial_last_run,
       dedup_by_id last_run events event_type
         (default MAX_EVENTS_PAGE_SIZE limit)
         = Ret (final_events, partial_last_run)
       ∧ is_Some (partial_last_run !! ids_key event_type)
       ∧ partial_last_run !! event_type = None)
  ∧ get_all_events now http_request timestamp_to_datestring fuel w last_run
      limit api_version is_command = Raise KeyError.
Proof.
  intros Hsplit Hpre Hfetch Hne Hsaved Hids Hties.
  pose proof (all_ties_differing_nil saved events
                (default MAX_EVENTS_PAGE_SIZE limit) Hties) as Hdiff.
  split.
  - intros Hslice. eexists _, _. split; [by apply dedup_by_id_spec|]. split.
    + rewrite lookup_checkpoint_after_ids by done. eauto.
    + by rewrite lookup_checkpoint_after_timestamp, Hdiff.
  - rewrite (get_all_events_split _ _ _ _ _ _ _ _ _ Hsplit), Hpre.
    destruct (prefix_keys_absent _ _ _ _ _ _ _ _ _ _ Hsplit Hpre) as [H1 _].
    destruct acc1 as [[events_result1 new_last_run1] w1].
    cbn [bind fst snd] in *.
    rewrite (event_type_iter_events _ _ _ _ _ _ _ _ _ _ _ Hfetch Hne).
    rewrite (dedup_by_id_spec _ _ _ _ saved ids) by done.
    cbn [bind]. unfold subscript at 1.
    rewrite lookup_union_r
      by (by rewrite lookup_checkpoint_after_timestamp, Hdiff).
    by rewrite H1.
Qed.

Lemma len_app {A} (l1 l2 : list A) : len (l1 ++ l2) = len l1 + len l2.
Proof. unfold len. rewrite length_app. lia. Qed.

Lemma stop_paging_iff (events results : list record) :
  stop_paging events results = true ↔
  len results < MAX_EVENTS_PAGE_SIZE ∨ results = [] ∨ len events = MAX_SKIP.
Proof.
  unfold stop_paging. rewrite !orb_true_iff, Z.ltb_lt, Z.eqb_eq.
  destruct results; naive_solver.
Qed.

Lemma fetch_pages_unfold fuel api_version w event_type last_run limit
    is_command events skip :
  fetch_pages now http_request (S fuel) api_version w event_type last_run
    limit is_command events skip =
  match request_page now http_request api_version w event_type last_run
          skip limit is_command with
  | (None, w') => Ret (events, w')
  | (Some results, w') =>
      if stop_paging (events ++ results) results
      then Ret (events ++ results, w')
      else fetch_pages now http_request fuel api_version w' event_type
             last_run limit is_command (events ++ results)
             (next_skip skip results)
  end.
Proof. reflexivity. Qed.


End CycleFacts.

Lemma C4_silent_event_type_absent_witness :
  ∃ events_result new_last_run,
    get_all_events epoch (scripted_remote [("page", [mk_record "p" 7])])
      datestring_stub 1 ()
      (<["page" := Atom (SInt 5)]> (mk_last_run "audit" 100 [SStr "a"]))
      None "v2" false
      = Ret (events_result, new_last_run, ())
    ∧ new_last_run !! "audit" = None
    ∧ new_last_run !! ids_key "audit" = None.
Proof.
  eexists _, _. split; [reflexivity|].
  eapply (C4_silent_event_type_absent epoch
            (scripted_remote [("page", [mk_record "p" 7])]) datestring_stub
            1 () (<["page" := Atom (SInt 5)]> (mk_last_run "audit" 100 [SStr "a"]))
            None "v2" false
            [] ["page"; "network"; "application"; "alert"] "audit");
    reflexivity.
Defined.

(** The claim of C4 fails on the code: with checkpoints for audit and page
    in the last run and a remote that rejects the audit request, audit
    accumulates nothing and the returned state has lost its checkpoint. *)
Lemma C4_counterexample :
  let last_run := <["page" := Atom (SInt 5)]> (mk_last_run "audit" 100 [SStr "a"]) in
  let remote := scripted_remote [("page", [mk_record "p" 7])] in
  fetch_pages epoch remote 1 "v2" () "audit" last_run MAX_EVENTS_PAGE_SIZE
    false [] 0 = Ret ([], ())
  ∧ ∃ events_result new_last_run,
      get_all_events epoch remote datestring_stub 1 () last_run None "v2" false
        = Ret (events_result, new_last_run, ())
      ∧ last_run !! "audit" = Some (Atom (SInt 100))
      ∧ new_last_run !! "audit" = None
      ∧ ¬ checkpoint_unchanged last_run new_last_run "audit".
Proof.
  cbv zeta. split; [compute_done|].
  eexists _, _. split; [reflexivity|].
  split; [compute_done|]. split; [compute_done|].
  intros [H _]. revert H. compute_done.
Qed.

Lemma C9_all_ties_key_error_witness :
  let last_run := mk_last_run "audit" 100 [SStr "a"] in
  let remote := scripted_remote [("audit", [mk_record "a" 100])] in
  (slice_to MAX_EVENTS_PAGE_SIZE (rev [mk_record "a" 100]) ≠ [] →
     ∃ final_events partial_last_run,
       dedup_by_id last_run [mk_record "a" 100] "audit" MAX_EVENTS_PAGE_SIZE
         = Ret (final_events, partial_last_run)
       ∧ is_Some (partial_last_run !! ids_key "audit")
       ∧ partial_last_run !! "audit" = None)
  ∧ get_all_events epoch remote datestring_stub 1 () last_run None "v2" false
      = Raise KeyError.
Proof.
  cbv zeta.
  apply (C9_all_ties_key_error epoch
           (scripted_remote [("audit", [mk_record "a" 100])]) datestring_stub
           1 () (mk_last_run "audit" 100 [SStr "a"]) None "v2" false
           [] ["page"; "network"; "application"; "alert"] "audit"
           ([], ∅, ()) [mk_record "a" 100] () (Atom (SInt 100)) {[SStr "a"]});
    try compute_done.
  intros event Hin. apply list_elem_of_In in Hin.
  destruct Hin as [<- | []]. compute_done.
Defined.

(** The first part of C9 fails on the code when the limit lets no record
    through: with limit 0 the all-ties batch yields the empty mapping, which
    has no ids key. *)
Lemma C9_counterexample :
  let last_run := mk_last_run "audit" 100 [SStr "a"] in
  (∀ event, event ∈ [mk_record "a" 100] →
     is_tie (Atom (SInt 100)) event = true)
  ∧ ∃ final_events partial_last_run,
      dedup_by_id last_run [mk_record "a" 100] "audit" 0
        = Ret (final_events, partial_last_run)
      ∧ partial_last_run !! ids_key "audit" = None.
Proof.
  cbv zeta. split.
  - intros event Hin. apply list_elem_of_In in Hin.
    destruct Hin as [<- | []]. compute_done.
  - eexists _, _. split; [reflexivity|compute_done].
Qed.

Lemma len_full_page : len full_page = MAX_EVENTS_PAGE_SIZE.
Proof. unfold len, full_page. rewrite repeat_length. reflexivity. Qed.



(** ** Delivery *)

Section Delivery.

Context {world : Type}.
Variable now : world -> Z.
Variable http_request : world -> request -> response * world.
Variable timestamp_to_datestring : scalar -> outcome string.

(** A record without a [timestamp] key makes
    [populate_parsing_rule_fields] raise [KeyError]: the handler around
    the conversion catches [TypeError] only. *)
Lemma populate_missing_timestamp (event : record) event_type :
  event !! "timestamp" = None →
  populate_parsing_rule_fields timestamp_to_datestring event event_type
    = Raise KeyError.
Proof.
  intros H. unfold populate_parsing_rule_fields, subscript.
  by rewrite lookup_insert_ne, H.
Qed.

(** A record whose timestamp is [None] is handed on without [_time]. *)
Lemma populate_null_timestamp (event : record) event_type :
  event !! "timestamp" = Some SNone →
  populate_parsing_rule_fields timestamp_to_datestring event event_type
    = Ret (<["source_log_event" := SStr event_type]> event).
Proof.
  intros H. unfold populate_parsing_rule_fields, subscript.
  by rewrite lookup_insert_ne, H.
Qed.


End Delivery.






(** C8: a record without a [timestamp] key is not delivered.
    [dedup_by_id] hands it on, but [populate_parsing_rule_fields] then
    raises [KeyError] on [event['timestamp']], which its handler for
    [TypeError] does not catch, and the whole of [get_all_events] aborts,
    taking the other record of the page with it. *)
Theorem C8_missing_timestamp_aborts :
  let event : record := <["_id" := SStr "x"]> ∅ in
  let page := [mk_record "y" 101; event] in
  let last_run := mk_last_run "audit" 100 [] in
  dedup_by_id last_run page "audit" MAX_EVENTS_PAGE_SIZE
    = Ret ([with_event_id event; with_event_id (mk_record "y" 101)],
           <[ids_key "audit" := PyList [SStr "x"; SStr "y"]]>
             (<["audit" := Atom (SInt 101)]> ∅))
  ∧ populate_parsing_rule_fields datestring_stub (with_event_id event) "audit"
      = Raise KeyError
  ∧ get_all_events epoch (scripted_remote [("audit", page)]) datestring_stub
      1 () last_run None "v2" false = Raise KeyError.
Proof. cbv zeta. repeat split; compute_done. Qed.

(** ** Successive cycles *)





Lemma elem_of_list_filter {A} (f : A → bool) l x :
  x ∈ List.filter f l ↔ x ∈ l ∧ f x = true.
Proof. rewrite !list_elem_of_In. rewrite List.filter_In. done. Qed.

Lemma elem_of_ids_of (l : list record) i :
  i ∈ ids_of l ↔ ∃ e, e ∈ l ∧ get e "_id" = i.
Proof. unfold ids_of. rewrite list_elem_of_fmap. naive_solver. Qed.









(** * Further properties of the collector *)

(** ** [dedup_by_id]: errors, order, bounds *)

(** What a returning call of [dedup_by_id] has computed. *)
Lemma dedup_by_id_Ret_inv last_run results event_type limit final_events
    new_last_run :
  dedup_by_id last_run results event_type limit
    = Ret (final_events, new_last_run) →
  ∃ ids,
    py_set (default (PyList []) (last_run !! ids_key event_type)) = Ret ids
    ∧ ((slice_to limit (rev results) = [] ∧ final_events = []
        ∧ new_last_run = ∅)
       ∨ ∃ saved,
           last_run !! event_type = Some saved
           ∧ final_events = delivered saved ids (slice_to limit (rev results))
           ∧ new_last_run
             = checkpoint_after event_type saved ids
                 (slice_to limit (rev results))).
Proof.
  intros H.
  destruct (py_set (default (PyList []) (last_run !! ids_key event_type)))
    as [ids| |] eqn:Hids; [|unfold dedup_by_id in H; rewrite Hids in H; done..].
  exists ids. split; [done|].
  destruct (last_run !! event_type) as [saved|] eqn:Hsaved.
  - right. exists saved. split; [done|].
    rewrite (dedup_by_id_spec _ _ _ _ saved ids) in H by done.
    by injection H as <- <-.
  - left. unfold dedup_by_id in H. rewrite Hids in H. simpl in H.
    destruct (slice_to limit (rev results)) as [|e l]; simpl in H.
    + by injection H as <- <-.
    + unfold dedup_iter, subscript in H. by rewrite Hsaved in H.
Qed.

(** X1.  [dedup_by_id] raises [TypeError] exactly when the ids entry of the
    last run is [None] or an integer, [KeyError] exactly when the ids entry
    is fine, the last run has no entry for the event type and the truncated
    batch is not empty, and returns in every other case; it raises nothing
    else and always ends. *)
Theorem dedup_by_id_errors (last_run : last_run_dict) (results : list record)
    (event_type : string) (limit : Z) :
  let bad_ids :=
    ∃ a, last_run !! ids_key event_type = Some (Atom a)
         ∧ (a = SNone ∨ ∃ z, a = SInt z) in
  let no_timestamp :=
    last_run !! event_type = None ∧ slice_to limit (rev results) ≠ [] in
  (dedup_by_id last_run results event_type limit = Raise TypeError ↔ bad_ids)
  ∧ (dedup_by_id last_run results event_type limit = Raise KeyError
     ↔ ¬ bad_ids ∧ no_timestamp)
  ∧ ((∃ final_events new_last_run,
        dedup_by_id last_run results event_type limit
          = Ret (final_events, new_last_run))
     ↔ ¬ bad_ids ∧ ¬ no_timestamp).
Proof.
  cbv zeta.
  assert (Hset :
    (∃ a, last_run !! ids_key event_type = Some (Atom a)
          ∧ (a = SNone ∨ ∃ z, a = SInt z))
    ↔ py_set (default (PyList []) (last_run !! ids_key event_type))
      = Raise TypeError).
  { destruct (last_run !! ids_key event_type) as [[[| |]| |]|]; simpl;
      naive_solver. }
  rewrite Hset. clear Hset.
  unfold dedup_by_id.
  destruct (py_set (default (PyList []) (last_run !! ids_key event_type)))
    as [ids|e|] eqn:Hids; simpl.
  - destruct (last_run !! event_type) as [saved|] eqn:Hsaved.
    + rewrite (dedup_loop_spec _ _ saved) by done. simpl.
      split; [naive_solver|]. split; [naive_solver|].
      split; [naive_solver|eauto].
    + destruct (slice_to limit (rev results)) as [|ev l]; simpl.
      * split; [naive_solver|]. split; [naive_solver|].
        split; [naive_solver|eauto].
      * unfold dedup_iter, subscript. rewrite Hsaved. simpl.
        split; [naive_solver|]. split; [naive_solver|].
        split; [by intros (? & ? & ?)|]. intros [_ H]. destruct H. done.
  - assert (e = TypeError) as ->.
    { destruct (last_run !! ids_key event_type) as [[[| |]| |]|];
        simpl in Hids; congruence. }
    split; [done|]. split; [naive_solver|].
    split; [by intros (? & ? & ?)|naive_solver].
  - destruct (last_run !! ids_key event_type) as [[[| |]| |]|];
      simpl in Hids; congruence.
Qed.

Lemma delivered_sublist saved ids l :
  delivered saved ids l `sublist_of` map with_event_id l.
Proof.
  revert ids. induction l as [|e l IH]; intros ids; simpl; [done|].
  destruct (is_tie saved e); [case_bool_decide|].
  - by apply sublist_cons.
  - by apply sublist_skip.
  - by apply sublist_skip.
Qed.

Lemma length_slice_to {A} (limit : Z) (l : list A) :
  len (slice_to limit l) ≤ len l
  ∧ (0 ≤ limit → len (slice_to limit l) ≤ limit).
Proof.
  unfold slice_to, len. destruct (Z.leb_spec 0 limit);
    rewrite length_take; lia.
Qed.

(** X2.  What [dedup_by_id] delivers is taken from the truncated batch in
    its order, oldest first: the delivered records are a subsequence of the
    reversed batch cut at [limit], each with [event_id] added.  So a call
    delivers no more records than the batch holds and, for a limit that is
    not negative, no more than [limit]. *)
Theorem dedup_by_id_delivers_subsequence (last_run : last_run_dict)
    (results : list record) (event_type : string) (limit : Z)
    (final_events : list record) (new_last_run : last_run_dict) :
  dedup_by_id last_run results event_type limit
    = Ret (final_events, new_last_run) →
  final_events `sublist_of` map with_event_id (slice_to limit (rev results))
  ∧ len final_events ≤ len results
  ∧ (0 ≤ limit → len final_events ≤ limit).
Proof.
  intros H.
  assert (final_events
            `sublist_of` map with_event_id (slice_to limit (rev results)))
    as Hsub.
  { apply dedup_by_id_Ret_inv in H
      as (ids & _ & [(_ & -> & _)|(saved & _ & -> & _)]).
    - apply sublist_nil_l.
    - apply delivered_sublist. }
  split; [done|].
  apply sublist_length in Hsub. rewrite length_map in Hsub.
  destruct (length_slice_to limit (rev results)) as [H1 H2].
  unfold len in *. rewrite length_rev in H1. split; [lia|].
  intros Hlim. specialize (H2 Hlim). lia.
Qed.

Lemma dedup_by_id_delivers_subsequence_witness :
  let results := [mk_record "c" 101; mk_record "b" 100; mk_record "a" 100] in
  let final_events := [with_event_id (mk_record "b" 100)] in
  final_events `sublist_of` map with_event_id (slice_to 2 (rev results))
  ∧ len final_events ≤ len results
  ∧ (0 ≤ 2 → len final_events ≤ 2).
Proof.
  cbv zeta.
  apply (dedup_by_id_delivers_subsequence
           (mk_last_run "audit" 100 [SStr "a"]) _ "audit" 2 _
           (<[ids_key "audit" := PySet {[SStr "a"; SStr "b"]}]> ∅)).
  compute_done.
Defined.

Lemma delivered_ties_fresh saved ids l :
  (∀ e, e ∈ delivered saved ids l → is_tie saved e = true →
        get e "_id" ∉ ids)
  ∧ NoDup (ids_of (List.filter (is_tie saved) (delivered saved ids l))).
Proof.
  revert ids. induction l as [|e l IH]; intros ids; simpl.
  { split; [set_solver|constructor]. }
  destruct (is_tie saved e) eqn:Ht.
  - case_bool_decide as Hin; [apply IH|].
    destruct (IH ({[get e "_id"]} ∪ ids)) as [IH1 IH2].
    assert (get (with_event_id e) "_id" = get e "_id") as Hid.
    { unfold with_event_id, get. by rewrite lookup_insert_ne. }
    split.
    + intros e' [->|He']%elem_of_cons Ht'.
      * by rewrite Hid.
      * specialize (IH1 e' He' Ht'). set_solver.
    + simpl. rewrite is_tie_with_event_id, Ht. simpl. rewrite Hid.
      apply NoDup_cons. split; [|done].
      intros (e' & [He' Ht']%elem_of_list_filter & Heq)%elem_of_ids_of.
      specialize (IH1 e' He' Ht'). set_solver.
  - destruct (IH ids) as [IH1 IH2]. split.
    + intros e' [->|He']%elem_of_cons Ht'.
      * rewrite is_tie_with_event_id in Ht'. congruence.
      * by apply IH1.
    + simpl. by rewrite is_tie_with_event_id, Ht.
Qed.

(** X3.  A record at the saved timestamp is never delivered when its
    identifier is among the saved ones, and never twice in one call: the
    delivered records whose timestamp equals the saved one carry
    identifiers that are pairwise distinct and all new. *)
Theorem dedup_by_id_no_replay_at_saved_timestamp (last_run : last_run_dict)
    (results : list record) (event_type : string) (limit : Z)
    (saved : pyobj) (ids : gset scalar)
    (final_events : list record) (new_last_run : last_run_dict) :
  last_run !! event_type = Some saved →
  py_set (default (PyList []) (last_run !! ids_key event_type)) = Ret ids →
  dedup_by_id last_run results event_type limit
    = Ret (final_events, new_last_run) →
  (∀ event, event ∈ final_events → is_tie saved event = true →
            get event "_id" ∉ ids)
  ∧ NoDup (ids_of (List.filter (is_tie saved) final_events)).
Proof.
  intros Hsaved Hids H.
  rewrite (dedup_by_id_spec _ _ _ _ saved ids) in H by done.
  injection H as <- _. apply delivered_ties_fresh.
Qed.

Lemma dedup_by_id_no_replay_at_saved_timestamp_witness :
  let final_events := [with_event_id (mk_record "b" 100);
                       with_event_id (mk_record "c" 101)] in
  (∀ event, event ∈ final_events → is_tie (Atom (SInt 100)) event = true →
            get event "_id" ∉ ({[SStr "a"]} : gset scalar))
  ∧ NoDup (ids_of (List.filter (is_tie (Atom (SInt 100))) final_events)).
Proof.
  cbv zeta.
  apply (dedup_by_id_no_replay_at_saved_timestamp
           (mk_last_run "audit" 100 [SStr "a"])
           [mk_record "c" 101; mk_record "b" 100; mk_record "b" 100;
            mk_record "a" 100] "audit" 10 _ _ _
           (<[ids_key "audit" := PyList [SStr "c"]]>
              (<["audit" := Atom (SInt 101)]> ∅)));
    compute_done.
Defined.

Lemma delivered_covers saved ids l e :
  e ∈ l → get e "_id" ∈ ids ∨ get e "_id" ∈ ids_of (delivered saved ids l).
Proof.
  revert ids. induction l as [|x l IH]; intros ids; [set_solver|].
  assert (get (with_event_id x) "_id" = get x "_id") as Hid.
  { unfold with_event_id, get. by rewrite lookup_insert_ne. }
  intros [->|He]%elem_of_cons; simpl.
  - destruct (is_tie saved x); [case_bool_decide|]; simpl; rewrite ?Hid;
      set_solver.
  - destruct (is_tie saved x); [case_bool_decide|]; simpl; rewrite ?Hid.
    + by apply IH.
    + destruct (IH ({[get x "_id"]} ∪ ids) He); set_solver.
    + destruct (IH ids He); set_solver.
Qed.

(** X4.  No identifier of the truncated batch is lost: each of its records
    either has an identifier that was saved before, or an identifier that is
    delivered by this call. *)
Theorem dedup_by_id_covers_batch (last_run : last_run_dict)
    (results : list record) (event_type : string) (limit : Z)
    (ids : gset scalar) (final_events : list record)
    (new_last_run : last_run_dict) (event : record) :
  py_set (default (PyList []) (last_run !! ids_key event_type)) = Ret ids →
  dedup_by_id last_run results event_type limit
    = Ret (final_events, new_last_run) →
  event ∈ slice_to limit (rev results) →
  get event "_id" ∈ ids ∨ get event "_id" ∈ ids_of final_events.
Proof.
  intros Hids H Hin.
  apply dedup_by_id_Ret_inv in H
    as (ids' & Hids' & [(Hnil & _)|(saved & _ & -> & _)]).
  - rewrite Hnil in Hin. set_solver.
  - rewrite Hids in Hids'. injection Hids' as <-. by apply delivered_covers.
Qed.

Lemma dedup_by_id_covers_batch_witness :
  get (mk_record "a" 100) "_id" ∈ ({[SStr "a"]} : gset scalar)
  ∨ get (mk_record "a" 100) "_id"
    ∈ ids_of [with_event_id (mk_record "b" 100);
              with_event_id (mk_record "c" 101)].
Proof.
  apply (dedup_by_id_covers_batch
           (mk_last_run "audit" 100 [SStr "a"])
           [mk_record "c" 101; mk_record "b" 100; mk_record "a" 100]
           "audit" 10 _ _
           (<[ids_key "audit" := PyList [SStr "c"]]>
              (<["audit" := Atom (SInt 101)]> ∅)));
    compute_done.
Defined.

(** X5.  The mapping [dedup_by_id] returns has no key but the event type
    and its ids key: a call never writes the checkpoint of another event
    type. *)
Theorem dedup_by_id_writes_own_keys (last_run : last_run_dict)
    (results : list record) (event_type : string) (limit : Z)
    (final_events : list record) (new_last_run : last_run_dict) :
  dedup_by_id last_run results event_type limit
    = Ret (final_events, new_last_run) →
  dom new_last_run ⊆ {[event_type; ids_key event_type]}.
Proof.
  intros H k Hk. apply elem_of_dom in Hk as [o Ho].
  destruct (decide (k = event_type)) as [->|H1]; [set_solver|].
  destruct (decide (k = ids_key event_type)) as [->|H2]; [set_solver|].
  rewrite (dedup_by_id_keys _ _ _ _ _ _ k H H1 H2) in Ho. done.
Qed.

Lemma dedup_by_id_writes_own_keys_witness :
  dom (<[ids_key "audit" := PyList [SStr "c"]]>
         (<["audit" := Atom (SInt 101)]> (∅ : last_run_dict)))
  ⊆ {["audit"; ids_key "audit"]}.
Proof.
  apply (dedup_by_id_writes_own_keys
           (<["page" := Atom (SInt 7)]> (mk_last_run "audit" 100 [SStr "a"]))
           [mk_record "c" 101; mk_record "b" 100; mk_record "a" 100]
           "audit" 10 [with_event_id (mk_record "b" 100);
                       with_event_id (mk_record "c" 101)]).
  compute_done.
Defined.

(** ** [populate_parsing_rule_fields] and pagination *)

Section MoreCycleFacts.

Context {world : Type}.
Variable now : world -> Z.
Variable http_request : world -> request -> response * world.
Variable timestamp_to_datestring : scalar -> outcome string.

(** X6.  [populate_parsing_rule_fields] never lets a [TypeError] out, and
    when it returns it has written the event type under [source_log_event],
    at most added [_time], and left every other field of the record as it
    was; [_time] is written exactly when the conversion of the timestamp
    returned. *)
Theorem populate_parsing_rule_fields_effect (event : record)
    (event_type : string) :
  populate_parsing_rule_fields timestamp_to_datestring event event_type
    ≠ Raise TypeError
  ∧ ∀ event',
      populate_parsing_rule_fields timestamp_to_datestring event event_type
        = Ret event' →
      event' !! "source_log_event" = Some (SStr event_type)
      ∧ (∀ k, k ≠ "source_log_event" → k ≠ "_time" →
              event' !! k = event !! k)
      ∧ (event' !! "_time" = event !! "_time"
         ∨ ∃ timestamp ms time,
             event !! "timestamp" = Some timestamp
             ∧ times_1000 timestamp = Ret ms
             ∧ timestamp_to_datestring ms = Ret time
             ∧ event' !! "_time" = Some (SStr time)).
Proof.
  unfold populate_parsing_rule_fields, subscript.
  rewrite lookup_insert_ne by done.
  destruct (event !! "timestamp") as [timestamp|] eqn:Hts; simpl.
  - destruct (times_1000 timestamp) as [ms|e|] eqn:Hms; simpl.
    + destruct (timestamp_to_datestring ms) as [time|e|] eqn:Htime.
      * split; [done|]. intros event' [= <-].
        split; [by rewrite lookup_insert_ne, lookup_insert_eq|].
        split; [intros k H1 H2; by rewrite !lookup_insert_ne|].
        right. exists timestamp, ms, time. by rewrite lookup_insert_eq.
      * split; [by destruct e|]. intros event' H.
        destruct e; [done| |done]. injection H as <-.
        split; [by rewrite lookup_insert_eq|].
        split; [intros k H1 H2; by rewrite lookup_insert_ne|].
        left. by rewrite lookup_insert_ne.
      * done.
    + split; [by destruct e|]. intros event' H.
      destruct e; [done| |done]. injection H as <-.
      split; [by rewrite lookup_insert_eq|].
      split; [intros k H1 H2; by rewrite lookup_insert_ne|].
      left. by rewrite lookup_insert_ne.
    + by destruct timestamp.
  - done.
Qed.

(** X7.  Against a remote that never sends more than
    [MAX_EVENTS_PAGE_SIZE] records in a page, the pagination of one event
    type ends within five requests and accumulates at most [MAX_SKIP]
    records. *)
Theorem fetch_pages_bounded (api_version event_type : string)
    (last_run : last_run_dict) (limit : Z) (is_command : bool)
    (fuel : nat) (w : world) :
  (∀ w skip results w',
     request_page now http_request api_version w event_type last_run skip
       limit is_command = (Some results, w') →
     len results ≤ MAX_EVENTS_PAGE_SIZE) →
  (5 ≤ fuel)%nat →
  ∃ all w',
    fetch_pages now http_request fuel api_version w event_type last_run limit
      is_command [] 0 = Ret (all, w')
    ∧ len all ≤ MAX_SKIP.
Proof.
  intros Hpage Hfuel.
  assert (∀ (n fuel : nat) events skip w,
            len events + MAX_EVENTS_PAGE_SIZE * (Z.of_nat n + 1) = MAX_SKIP →
            (n < fuel)%nat →
            ∃ all w',
              fetch_pages now http_request fuel api_version w event_type
                last_run limit is_command events skip = Ret (all, w')
              ∧ len all ≤ MAX_SKIP) as Hloop.
  { clear fuel w Hfuel.
    induction n as [|n IH]; intros fuel events skip w Hlen Hfuel;
      (destruct fuel as [|fuel]; [lia|]);
      rewrite fetch_pages_unfold;
      destruct (request_page _ _ _ _ _ _ _ _ _) as [[results|] w'] eqn:Hreq;
      try (eexists _, _; split; [done|];
           unfold len, MAX_SKIP, MAX_EVENTS_PAGE_SIZE in *; lia);
      specialize (Hpage _ _ _ _ Hreq);
      assert (len (events ++ results) = len events + len results)
        as Htotal by apply len_app;
      destruct (stop_paging (events ++ results) results) eqn:Hstop;
      try (eexists _, _; split; [done|];
           unfold MAX_SKIP, MAX_EVENTS_PAGE_SIZE in *; lia).
    - exfalso. assert (stop_paging (events ++ results) results = true);
        [|congruence].
      apply stop_paging_iff.
      unfold MAX_SKIP, MAX_EVENTS_PAGE_SIZE in *. lia.
    - assert (¬ len results < MAX_EVENTS_PAGE_SIZE) as Hfull.
      { intros Hshort.
        assert (stop_paging (events ++ results) results = true);
          [|congruence].
        apply stop_paging_iff. by left. }
      apply IH; [|lia]. unfold MAX_SKIP, MAX_EVENTS_PAGE_SIZE in *. lia. }
  apply (Hloop 4%nat); [done|lia].
Qed.

(** X8.  Against a remote that sends more than [MAX_EVENTS_PAGE_SIZE]
    records in every page, always the same number [n], the pagination never
    ends unless [MAX_SKIP] is a multiple of [n]: the offset is not advanced
    and the total steps over the cap, which is tested by equality. *)
Theorem fetch_pages_oversized_pages_diverge (api_version event_type : string)
    (last_run : last_run_dict) (limit : Z) (is_command : bool) (n : Z) :
  MAX_EVENTS_PAGE_SIZE < n →
  ¬ (n | MAX_SKIP) →
  (∀ w skip, ∃ results w',
     request_page now http_request api_version w event_type last_run skip
       limit is_command = (Some results, w')
     ∧ len results = n) →
  ∀ fuel w,
    fetch_pages now http_request fuel api_version w event_type last_run limit
      is_command [] 0 = OutOfFuel.
Proof.
  intros Hbig Hndiv Hpage.
  assert (∀ fuel events skip w,
            (n | len events) →
            fetch_pages now http_request fuel api_version w event_type
              last_run limit is_command events skip = OutOfFuel) as Hloop.
  { induction fuel as [|fuel IH]; intros events skip w Hdiv; [done|].
    rewrite fetch_pages_unfold.
    destruct (Hpage w skip) as (results & w' & -> & Hlen).
    assert ((n | len (events ++ results))) as Hdiv'.
    { rewrite len_app, Hlen. by apply Z.divide_add_r. }
    destruct (stop_paging (events ++ results) results) eqn:Hstop.
    - apply stop_paging_iff in Hstop as [?|[->|Heq]].
      + lia.
      + unfold len, MAX_EVENTS_PAGE_SIZE in *. simpl in Hlen. lia.
      + rewrite Heq in Hdiv'. done.
    - by apply IH. }
  intros fuel w. apply Hloop. apply Z.divide_0_r.
Qed.

End MoreCycleFacts.

Lemma fetch_pages_bounded_witness :
  ∃ all w',
    fetch_pages epoch (paged_remote (numbered 30)) 5 "v2" () "audit"
      (mk_last_run "audit" 5 []) MAX_EVENTS_PAGE_SIZE true [] 0
      = Ret (all, w')
    ∧ len all ≤ MAX_SKIP.
Proof.
  apply (fetch_pages_bounded epoch (paged_remote (numbered 30)) "v2" "audit"
           (mk_last_run "audit" 5 []) MAX_EVENTS_PAGE_SIZE true 5 ());
    [|lia].
  intros w skip results w' [= <- _].
  unfold len. rewrite length_take. unfold MAX_EVENTS_PAGE_SIZE. lia.
Defined.

Lemma fetch_pages_oversized_pages_diverge_witness :
  fetch_pages epoch (scripted_remote [("audit", oversized_page)]) 7 "v2" ()
    "audit" (mk_last_run "audit" 5 []) 20000 true [] 0 = OutOfFuel.
Proof.
  apply (fetch_pages_oversized_pages_diverge epoch
           (scripted_remote [("audit", oversized_page)]) "v2" "audit"
           (mk_last_run "audit" 5 []) 20000 true 20000).
  - unfold MAX_EVENTS_PAGE_SIZE. lia.
  - unfold MAX_SKIP. intros [k Hk]. lia.
  - intros [] skip. exists oversized_page, (). split; [reflexivity|].
    unfold len, oversized_page. rewrite repeat_length. reflexivity.
Defined.

(** ** [get_all_events]: what a returning cycle holds *)

Lemma mapM_Forall2 {A B} (f : A → outcome B) l l' :
  mapM f l = Ret l' → Forall2 (fun x y => f x = Ret y) l l'.
Proof.
  revert l'. induction l as [|x l IH]; intros l'; simpl.
  - intros [= <-]. constructor.
  - destruct (f x) as [y| |] eqn:Hx; simpl; [|done..].
    destruct (mapM f l) as [ys| |]; simpl; [|done..].
    intros [= <-]. constructor; auto.
Qed.

Lemma delivered_from_batch saved ids l :
  Forall (fun event' => ∃ event, event ∈ l ∧ event' = with_event_id event)
         (delivered saved ids l).
Proof.
  revert ids. induction l as [|e l IH]; intros ids; simpl; [constructor|].
  assert (∀ ids',
    Forall (fun event' => ∃ event, event ∈ e :: l
                                   ∧ event' = with_event_id event)
           (delivered saved ids' l)) as Hrest.
  { intros ids'. eapply Forall_impl; [apply IH|].
    intros x (e' & He' & ->). exists e'. split; [by right|done]. }
  destruct (is_tie saved e); [case_bool_decide|]; try done;
    (constructor; [exists e; split; [by left|done]|done]).
Qed.

Section CycleResults.

Context {world : Type}.
Variable now : world -> Z.
Variable http_request : world -> request -> response * world.
Variable timestamp_to_datestring : scalar -> outcome string.

Local Notation iter :=
  (event_type_iter now http_request timestamp_to_datestring).

(** One turn of the loop over the event types, when it returns: either the
    event type accumulated nothing and the locals are as before, or
    [dedup_by_id] returned, both of its keys were read from the updated
    [new_last_run], and the delivered records went through
    [populate_parsing_rule_fields]. *)
Lemma event_type_iter_Ret_inv fuel api_version last_run limit is_command
    events_result new_last_run w event_type events_result' new_last_run' w' :
  iter fuel api_version last_run limit is_command
    (events_result, new_last_run, w) event_type
    = Ret (events_result', new_last_run', w') →
  ∃ events,
    fetch_pages now http_request fuel api_version w event_type last_run limit
      is_command [] 0 = Ret (events, w')
    ∧ ((events = [] ∧ events_result' = events_result
        ∧ new_last_run' = new_last_run)
       ∨ ∃ final_events partial_last_run parsed_events,
           events ≠ []
           ∧ dedup_by_id last_run events event_type limit
             = Ret (final_events, partial_last_run)
           ∧ new_last_run' = partial_last_run ∪ new_last_run
           ∧ is_Some (new_last_run' !! event_type)
           ∧ is_Some (new_last_run' !! ids_key event_type)
           ∧ mapM (fun event =>
                     populate_parsing_rule_fields timestamp_to_datestring
                       event event_type) final_events = Ret parsed_events
           ∧ events_result' = events_result ++ parsed_events).
Proof.
  unfold event_type_iter. intros H.
  destruct (fetch_pages _ _ _ _ _ _ _ _ _ _ _) as [[events w1]| |];
    simpl in H; [|done..].
  destruct events as [|e events].
  { injection H as <- <- <-. eexists. split; [done|]. by left. }
  destruct (dedup_by_id _ _ _ _) as [[final_events partial]| |] eqn:Hd;
    simpl in H; [|done..].
  unfold subscript in H.
  destruct ((partial ∪ new_last_run) !! event_type) eqn:H1;
    simpl in H; [|done].
  destruct ((partial ∪ new_last_run) !! ids_key event_type) eqn:H2;
    simpl in H; [|done].
  destruct (mapM _ _) as [parsed_events| |] eqn:Hm; simpl in H; [|done..].
  injection H as <- <- <-.
  eexists. split; [done|]. right.
  exists final_events, partial, parsed_events.
  rewrite H1, H2. eauto 10.
Qed.

Lemma foldM_iter_events_grow fuel api_version last_run limit is_command l
    acc acc' :
  foldM (iter fuel api_version last_run limit is_command) l acc = Ret acc' →
  ∃ more, acc'.1.1 = acc.1.1 ++ more.
Proof.
  revert acc. induction l as [|et l IH]; intros acc; simpl.
  - intros [= <-]. exists []. by rewrite app_nil_r.
  - destruct (iter _ _ _ _ _ acc et) as [acc1| |] eqn:E; simpl; [|done..].
    intros H. destruct (IH _ H) as [more Hmore].
    destruct acc as [[er nlr] w], acc1 as [[er1 nlr1] w1].
    apply event_type_iter_Ret_inv in E
      as (events & _ & [(_ & -> & _)|(fe & pl & pe & _ & _ & _ & _ & _ & _ & ->)]).
    + eauto.
    + exists (pe ++ more). simpl in *. by rewrite Hmore, app_assoc.
Qed.

(** X9.  The event types do not interfere.  When a cycle returns, for an
    event type that accumulated records the state holds exactly the
    timestamp and the ids [dedup_by_id] computed for it from the prior last
    run, both present, and the batch holds the records [dedup_by_id]
    delivered, after [populate_parsing_rule_fields], in one block that
    follows the records of the event types before it. *)
Theorem get_all_events_event_type_result (fuel : nat) (w : world)
    (last_run : last_run_dict) (limit : option Z) (api_version : string)
    (is_command : bool) (pre post : list string) (event_type : string)
    (acc1 : list record * last_run_dict * world)
    (events : list record) (w2 : world)
    (events_result : list record) (new_last_run : last_run_dict) (w' : world) :
  ALL_SUPPORTED_EVENT_TYPES = pre ++ event_type :: post →
  foldM (iter fuel api_version last_run (default MAX_EVENTS_PAGE_SIZE limit)
           is_command) pre ([], ∅, w) = Ret acc1 →
  fetch_pages now http_request fuel api_version acc1.2 event_type last_run
    (default MAX_EVENTS_PAGE_SIZE limit) is_command [] 0 = Ret (events, w2) →
  events ≠ [] →
  get_all_events now http_request timestamp_to_datestring fuel w last_run
    limit api_version is_command = Ret (events_result, new_last_run, w') →
  ∃ final_events partial_last_run parsed_events others,
    dedup_by_id last_run events event_type (default MAX_EVENTS_PAGE_SIZE limit)
      = Ret (final_events, partial_last_run)
    ∧ mapM (fun event =>
              populate_parsing_rule_fields timestamp_to_datestring event
                event_type) final_events = Ret parsed_events
    ∧ events_result = acc1.1.1 ++ parsed_events ++ others
    ∧ new_last_run !! event_type = partial_last_run !! event_type
    ∧ new_last_run !! ids_key event_type
      = partial_last_run !! ids_key event_type
    ∧ is_Some (partial_last_run !! event_type)
    ∧ is_Some (partial_last_run !! ids_key event_type).
Proof.
  intros Hsplit Hpre Hfetch Hne Hall.
  rewrite (get_all_events_split now http_request timestamp_to_datestring
             _ _ _ _ _ _ _ _ _ Hsplit), Hpre in Hall.
  cbn [bind] in Hall.
  destruct (prefix_keys_absent now http_request timestamp_to_datestring
              _ _ _ _ _ _ _ _ _ _ Hsplit Hpre)
    as [Habs1 Habs2].
  destruct acc1 as [[events_result1 new_last_run1] w1]. cbn [fst snd] in *.
  destruct (iter fuel api_version last_run
              (default MAX_EVENTS_PAGE_SIZE limit) is_command
              (events_result1, new_last_run1, w1) event_type)
    as [[[er2 nlr2] w2']| |] eqn:Hiter; cbn [bind] in Hall; [|done..].
  pose proof Hiter as Hinv.
  apply event_type_iter_Ret_inv in Hinv as (events' & Hfetch' & Hcases).
  rewrite Hfetch in Hfetch'. injection Hfetch' as <- <-.
  destruct Hcases as [(? & _)|
                      (fe & pl & pe & _ & Hd & -> & Hs1 & Hs2 & Hm & ->)];
    [done|].
  destruct (foldM_iter_events_grow _ _ _ _ _ _ _ _ Hall) as [others Hothers].
  cbn [fst snd] in Hothers.
  assert (∀ k, k = event_type ∨ k = ids_key event_type →
               new_last_run !! k = pl !! k ∧ is_Some ((pl ∪ new_last_run1) !! k)
               → new_last_run !! k = pl !! k ∧ is_Some (pl !! k)) as Hpl.
  { intros k Hk [Heq Hsome]. split; [done|].
    rewrite lookup_union_l in Hsome; [done|]. by destruct Hk as [->| ->]. }
  assert (∀ k, k = event_type ∨ k = ids_key event_type →
               new_last_run !! k = pl !! k) as Hframe.
  { intros k Hk.
    assert (new_last_run !! k = (pl ∪ new_last_run1) !! k) as ->.
    { apply (foldM_iter_frame now http_request timestamp_to_datestring
               _ _ _ _ _ _ _ _ k Hall).
      intros other Hin.
      destruct (supported_keys_apart pre event_type post other Hsplit)
        as [[? ?] [? ?]]; [set_solver|].
      by destruct Hk as [->| ->]. }
    apply lookup_union_l. by destruct Hk as [->| ->]. }
  exists fe, pl, pe, others.
  split; [done|]. split; [done|]. split; [by rewrite Hothers, app_assoc|].
  destruct (Hpl event_type) as [? ?]; [by left|by split; [apply Hframe; left|]|].
  destruct (Hpl (ids_key event_type)) as [? ?];
    [by right|by split; [apply Hframe; right|]|].
  done.
Qed.


Lemma populate_Ret_fields (event event' : record) event_type k :
  populate_parsing_rule_fields timestamp_to_datestring event event_type
    = Ret event' →
  event' !! "source_log_event" = Some (SStr event_type)
  ∧ (k ≠ "source_log_event" → k ≠ "_time" → event' !! k = event !! k).
Proof.
  unfold populate_parsing_rule_fields.
  destruct (let* ts := subscript _ "timestamp" in _) as [time|e|];
    [|destruct e|]; intros [= <-].
  - split; [by rewrite lookup_insert_ne, lookup_insert_eq|].
    intros H1 H2. by rewrite !lookup_insert_ne.
  - split; [by rewrite lookup_insert_eq|].
    intros H1 H2. by rewrite lookup_insert_ne.
Qed.

Lemma event_type_iter_well_tagged fuel api_version last_run limit is_command
    acc acc' event_type :
  event_type ∈ ALL_SUPPORTED_EVENT_TYPES →
  Forall well_tagged acc.1.1 →
  iter fuel api_version last_run limit is_command acc event_type = Ret acc' →
  Forall well_tagged acc'.1.1.
Proof.
  intros Hin Hacc H.
  destruct acc as [[er nlr] w], acc' as [[er' nlr'] w'].
  apply event_type_iter_Ret_inv in H
    as (events & _ & [(_ & -> & _)|
          (fe & pl & pe & _ & Hd & _ & _ & _ & Hm & ->)]); [done|].
  simpl in *. apply Forall_app. split; [done|].
  assert (Forall (fun event' => ∃ event, event' = with_event_id event) fe)
    as Hfe.
  { apply dedup_by_id_Ret_inv in Hd
      as (ids & _ & [(_ & -> & _)|(saved & _ & -> & _)]); [constructor|].
    eapply Forall_impl; [apply delivered_from_batch|]. naive_solver. }
  apply mapM_Forall2 in Hm. clear Hd.
  induction Hm as [|x y l l' Hxy _ IH]; [constructor|].
  apply Forall_cons in Hfe as [[e ->] Hfe].
  constructor; [|by apply IH].
  destruct (populate_Ret_fields _ _ _ "event_id" Hxy) as [Hs Hk].
  destruct (populate_Ret_fields _ _ _ "_id" Hxy) as [_ Hk'].
  split; [|eauto].
  rewrite Hk by done. unfold get. rewrite Hk' by done.
  unfold with_event_id. rewrite lookup_insert_eq, lookup_insert_ne by done.
  done.
Qed.

(** X10.  Every record a cycle returns carries its identifier under
    [event_id] ([None] when it has none) and, under [source_log_event], the
    name of a supported event type. *)
Theorem get_all_events_records_tagged (fuel : nat) (w : world)
    (last_run : last_run_dict) (limit : option Z) (api_version : string)
    (is_command : bool) (events_result : list record)
    (new_last_run : last_run_dict) (w' : world) (event : record) :
  get_all_events now http_request timestamp_to_datestring fuel w last_run
    limit api_version is_command = Ret (events_result, new_last_run, w') →
  event ∈ events_result →
  event !! "event_id" = Some (get event "_id")
  ∧ ∃ event_type, event_type ∈ ALL_SUPPORTED_EVENT_TYPES
                  ∧ event !! "source_log_event" = Some (SStr event_type).
Proof.
  unfold get_all_events. intros H Hin.
  assert (∀ l acc acc',
            l ⊆ ALL_SUPPORTED_EVENT_TYPES →
            Forall well_tagged acc.1.1 →
            foldM (iter fuel api_version last_run
                     (default MAX_EVENTS_PAGE_SIZE limit) is_command) l acc
              = Ret acc' →
            Forall well_tagged acc'.1.1) as Hfold.
  { induction l as [|et l IH]; intros acc acc' Hl Hacc; simpl.
    - by intros [= <-].
    - destruct (iter _ _ _ _ _ acc et) as [acc1| |] eqn:E; simpl; [|done..].
      apply IH; [set_solver|].
      eapply event_type_iter_well_tagged; [|done|exact E]. set_solver. }
  pose proof (Hfold _ ([], ∅, w) _ (reflexivity _) (Forall_nil_2 _) H)
    as Hall.
  rewrite Forall_forall in Hall. by apply Hall.
Qed.

Lemma event_type_iter_length fuel api_version last_run limit is_command
    acc acc' event_type :
  0 ≤ limit →
  iter fuel api_version last_run limit is_command acc event_type = Ret acc' →
  len acc'.1.1 ≤ len acc.1.1 + limit.
Proof.
  intros Hlimit H.
  destruct acc as [[er nlr] w], acc' as [[er' nlr'] w'].
  apply event_type_iter_Ret_inv in H
    as (events & _ & [(_ & -> & _)|
          (fe & pl & pe & _ & Hd & _ & _ & _ & Hm & ->)]); simpl; [lia|].
  rewrite len_app. apply mapM_Forall2, Forall2_length in Hm.
  assert (len fe ≤ limit); [|unfold len in *; lia].
  apply dedup_by_id_Ret_inv in Hd
    as (ids & _ & [(_ & -> & _)|(saved & _ & -> & _)]); [done|].
  pose proof (sublist_length _ _ (delivered_sublist saved ids
                (slice_to limit (rev events)))) as Hsub.
  rewrite length_map in Hsub.
  destruct (length_slice_to limit (rev events)) as [_ Hle].
  specialize (Hle Hlimit). unfold len in *. lia.
Qed.

(** X11.  The limit bounds what each event type contributes, not the
    cycle: with a limit that is not negative a cycle returns at most five
    times [limit] records, [limit] for each of the five event types. *)
Theorem get_all_events_count (fuel : nat) (w : world)
    (last_run : last_run_dict) (limit : Z) (api_version : string)
    (is_command : bool) (events_result : list record)
    (new_last_run : last_run_dict) (w' : world) :
  0 ≤ limit →
  get_all_events now http_request timestamp_to_datestring fuel w last_run
    (Some limit) api_version is_command
    = Ret (events_result, new_last_run, w') →
  len events_result ≤ 5 * limit.
Proof.
  unfold get_all_events. intros Hlimit H.
  assert (∀ l acc acc',
            foldM (iter fuel api_version last_run limit is_command) l acc
              = Ret acc' →
            len acc'.1.1 ≤ len acc.1.1 + limit * len l) as Hfold.
  { induction l as [|et l IH]; intros acc acc'; simpl.
    - intros [= <-]. unfold len. simpl. lia.
    - destruct (iter _ _ _ _ _ acc et) as [acc1| |] eqn:E; simpl; [|done..].
      intros Hrest. apply IH in Hrest.
      apply event_type_iter_length in E; [|done].
      unfold len in *. simpl. lia. }
  apply Hfold in H. simpl in H. unfold len in *. simpl in *. lia.
Qed.

End CycleResults.

Lemma get_all_events_event_type_result_witness :
  ∃ final_events partial_last_run parsed_events others,
    dedup_by_id two_types_last_run [mk_record "p2" 21; mk_record "p1" 20]
      "page" (default MAX_EVENTS_PAGE_SIZE None)
      = Ret (final_events, partial_last_run)
    ∧ mapM (fun event =>
              populate_parsing_rule_fields datestring_stub event "page")
           final_events = Ret parsed_events
    ∧ [parsed "audit" "1970-01-01T00:00:00Z" (mk_record "a1" 10);
       parsed "page" "1970-01-01T00:00:00Z" (mk_record "p2" 21)]
      = ([parsed "audit" "1970-01-01T00:00:00Z" (mk_record "a1" 10)],
         mk_last_run "audit" 10 [SStr "a1"], ()).1.1
        ++ parsed_events ++ others
    ∧ (mk_last_run "page" 21 [SStr "p2"] ∪ mk_last_run "audit" 10 [SStr "a1"])
        !! "page" = partial_last_run !! "page"
    ∧ (mk_last_run "page" 21 [SStr "p2"] ∪ mk_last_run "audit" 10 [SStr "a1"])
        !! ids_key "page" = partial_last_run !! ids_key "page"
    ∧ is_Some (partial_last_run !! "page")
    ∧ is_Some (partial_last_run !! ids_key "page").
Proof.
  apply (get_all_events_event_type_result epoch two_types_remote
           datestring_stub 1 () two_types_last_run None "v2" false
           ["audit"] ["network"; "application"; "alert"] "page"
           ([parsed "audit" "1970-01-01T00:00:00Z" (mk_record "a1" 10)],
            mk_last_run "audit" 10 [SStr "a1"], ())
           [mk_record "p2" 21; mk_record "p1" 20] ()
           _ _ ());
    compute_done.
Defined.

Lemma get_all_events_records_tagged_witness :
  let event := parsed "page" "1970-01-01T00:00:00Z" (mk_record "p2" 21) in
  event !! "event_id" = Some (get event "_id")
  ∧ ∃ event_type, event_type ∈ ALL_SUPPORTED_EVENT_TYPES
                  ∧ event !! "source_log_event" = Some (SStr event_type).
Proof.
  cbv zeta.
  apply (get_all_events_records_tagged epoch two_types_remote datestring_stub
           1 () two_types_last_run None "v2" false
           [parsed "audit" "1970-01-01T00:00:00Z" (mk_record "a1" 10);
            parsed "page" "1970-01-01T00:00:00Z" (mk_record "p2" 21)]
           (mk_last_run "page" 21 [SStr "p2"]
              ∪ mk_last_run "audit" 10 [SStr "a1"]) ());
    compute_done.
Defined.

Lemma get_all_events_count_witness :
  len [parsed "audit" "1970-01-01T00:00:00Z" (mk_record "a1" 10);
       parsed "page" "1970-01-01T00:00:00Z" (mk_record "p1" 20)] ≤ 5 * 1.
Proof.
  apply (get_all_events_count epoch two_types_remote datestring_stub
           1 () (mk_last_run "page" 7 [] ∪ mk_last_run "audit" 5 [])
           1 "v2" false _
           (mk_last_run "page" 20 [SStr "p1"]
              ∪ mk_last_run "audit" 10 [SStr "a1"]) ());
    compute_done.
Defined.

(** ** [get_events_command] *)

Lemma mapM_app {A B} (f : A → outcome B) l1 l2 :
  mapM f (l1 ++ l2) =
  let* ys1 := mapM f l1 in let* ys2 := mapM f l2 in Ret (ys1 ++ ys2).
Proof.
  induction l1 as [|x l1 IH]; simpl.
  - by destruct (mapM f l2).
  - destruct (f x); simpl; [|done..]. rewrite IH.
    destruct (mapM f l1); simpl; [|done..]. by destruct (mapM f l2).
Qed.

Lemma mapM_map_Ret {A B} (f : A → outcome B) (g : A → B) l :
  Forall (fun x => f x = Ret (g x)) l → mapM f l = Ret (map g l).
Proof. induction 1 as [|x l Hx _ IH]; simpl; [done|]. by rewrite Hx, IH. Qed.

Lemma has_time_lookup (event : record) :
  has_time event → event !! "timestamp" = Some (SInt (time_of event)).
Proof.
  unfold has_time, get. destruct (event !! "timestamp"); simpl; congruence.
Qed.

Section Command.

Context {world : Type}.
Variable now : world -> Z.
Variable http_request : world -> request -> response * world.
Variable timestamp_to_datestring : scalar -> outcome string.

(** X12.  When the cycle behind it returns records that all carry an
    integer timestamp the conversion accepts, [get_events_command] returns
    the same records in the same order, each with its timestamp replaced by
    the date string and nothing else changed.  A missing limit and a limit
    of 0 stand for 50. *)
Theorem get_events_command_converts (fuel : nat) (w : world)
    (limit_arg : option Z) (limit : Z) (last_run : last_run_dict)
    (api_version : string) (is_command : bool)
    (events : list record) (new_last_run : last_run_dict) (w' : world) :
  (limit_arg = Some limit ∧ limit ≠ 0
   ∨ (limit_arg = None ∨ limit_arg = Some 0) ∧ limit = 50) →
  get_all_events now http_request timestamp_to_datestring fuel w last_run
    (Some limit) api_version is_command = Ret (events, new_last_run, w') →
  Forall (fun event =>
            has_time event
            ∧ ∃ time, timestamp_to_datestring (SInt (time_of event * 1000))
                      = Ret time) events →
  get_events_command now http_request timestamp_to_datestring fuel w
    limit_arg last_run api_version is_command
  = Ret (map (fun event =>
                <["timestamp" := SStr (date_of timestamp_to_datestring event)]>
                  event) events, w').
Proof.
  intros Hlimit Hall Hevents. unfold get_events_command.
  assert (match limit_arg with
          | Some n => if n =? 0 then 50 else n
          | None => 50
          end = limit) as ->.
  { destruct Hlimit as [[-> Hne]|[[->| ->] ->]]; [|done..].
    by destruct (Z.eqb_spec limit 0). }
  rewrite Hall. cbn [bind].
  rewrite (mapM_map_Ret _
    (fun event => <["timestamp" := SStr (date_of timestamp_to_datestring event)]>
                    event)); [done|].
  eapply Forall_impl; [exact Hevents|]. intros event [Htime [time Hs]].
  unfold subscript, date_of. rewrite (has_time_lookup _ Htime). simpl.
  by rewrite Hs.
Qed.

(** X13.  A record whose timestamp is [None] gets through
    [get_all_events], which hands it on without [_time], but not through
    [get_events_command]: its conversion loop has no handler, and the first
    such record makes the command raise [TypeError]. *)
Theorem get_events_command_null_timestamp (fuel : nat) (w : world)
    (limit_arg : option Z) (limit : Z) (last_run : last_run_dict)
    (api_version : string) (is_command : bool)
    (before after : list record) (event : record)
    (new_last_run : last_run_dict) (w' : world) :
  (limit_arg = Some limit ∧ limit ≠ 0
   ∨ (limit_arg = None ∨ limit_arg = Some 0) ∧ limit = 50) →
  get_all_events now http_request timestamp_to_datestring fuel w last_run
    (Some limit) api_version is_command
    = Ret (before ++ event :: after, new_last_run, w') →
  Forall (fun event =>
            has_time event
            ∧ ∃ time, timestamp_to_datestring (SInt (time_of event * 1000))
                      = Ret time) before →
  event !! "timestamp" = Some SNone →
  get_events_command now http_request timestamp_to_datestring fuel w
    limit_arg last_run api_version is_command = Raise TypeError.
Proof.
  intros Hlimit Hall Hbefore Hnull. unfold get_events_command.
  assert (match limit_arg with
          | Some n => if n =? 0 then 50 else n
          | None => 50
          end = limit) as ->.
  { destruct Hlimit as [[-> Hne]|[[->| ->] ->]]; [|done..].
    by destruct (Z.eqb_spec limit 0). }
  rewrite Hall. cbn [bind]. rewrite mapM_app.
  rewrite (mapM_map_Ret _
    (fun event => <["timestamp" := SStr (date_of timestamp_to_datestring event)]>
                    event)).
  - simpl. unfold subscript. by rewrite Hnull.
  - eapply Forall_impl; [exact Hbefore|]. intros e [Htime [time Hs]].
    unfold subscript, date_of. rewrite (has_time_lookup _ Htime). simpl.
    by rewrite Hs.
Qed.

End Command.

Lemma get_events_command_converts_witness :
  get_events_command epoch two_types_remote datestring_stub 1 () None
    two_types_last_run "v2" true
  = Ret (map (fun event =>
                <["timestamp" := SStr (date_of datestring_stub event)]> event)
             [parsed "audit" "1970-01-01T00:00:00Z" (mk_record "a1" 10);
              parsed "page" "1970-01-01T00:00:00Z" (mk_record "p2" 21)],
         ()).
Proof.
  apply (get_events_command_converts epoch two_types_remote datestring_stub
           1 () None 50 two_types_last_run "v2" true _
           (mk_last_run "page" 21 [SStr "p2"]
              ∪ mk_last_run "audit" 10 [SStr "a1"]) ()).
  - right. split; [by left|done].
  - compute_done.
  - repeat constructor; solve [compute_done | eexists; reflexivity].
Defined.

Lemma get_events_command_null_timestamp_witness :
  get_events_command epoch
    (scripted_remote [("audit", [mk_record "y" 101; null_time_record])])
    datestring_stub 1 () (Some 0) (mk_last_run "audit" 100 []) "v2" true
  = Raise TypeError.
Proof.
  apply (get_events_command_null_timestamp epoch
           (scripted_remote [("audit", [mk_record "y" 101; null_time_record])])
           datestring_stub 1 () (Some 0) 50 (mk_last_run "audit" 100 [])
           "v2" true []
           [parsed "audit" "1970-01-01T00:00:00Z" (mk_record "y" 101)]
           (<["source_log_event" := SStr "audit"]>
              (with_event_id null_time_record))
           (mk_last_run "audit" 101 [SStr "x"; SStr "y"]) ()).
  - right. split; [by right|done].
  - compute_done.
  - constructor.
  - compute_done.
Defined.

(** ** The first-fetch loop of [main] *)

Lemma first_fetch_iter_other first_fetch last_run event_type k :
  k ≠ event_type → k ≠ ids_key event_type →
  first_fetch_iter first_fetch last_run event_type !! k = last_run !! k.
Proof.
  intros H1 H2. unfold first_fetch_iter.
  destruct (truthy _); [done|]. by rewrite !lookup_insert_ne.
Qed.

Lemma first_fetch_foldl_other first_fetch l last_run k :
  (∀ event_type, event_type ∈ l → k ≠ event_type ∧ k ≠ ids_key event_type) →
  foldl (first_fetch_iter first_fetch) last_run l !! k = last_run !! k.
Proof.
  revert last_run. induction l as [|x l IH]; intros last_run Hk; [done|].
  simpl. rewrite IH by (intros; apply Hk; set_solver).
  apply first_fetch_iter_other; apply Hk; set_solver.
Qed.

Lemma first_fetch_init_lookups first_fetch last_run event_type :
  event_type ∈ ALL_SUPPORTED_EVENT_TYPES →
  first_fetch_init first_fetch last_run !! event_type
  = (if truthy (last_run_get last_run event_type)
     then last_run !! event_type else Some (Atom (SInt first_fetch)))
  ∧ first_fetch_init first_fetch last_run !! ids_key event_type
    = (if truthy (last_run_get last_run event_type)
       then last_run !! ids_key event_type
       else Some (default (PyList []) (last_run !! ids_key event_type))).
Proof.
  intros Hin. apply list_elem_of_split in Hin as (pre & post & Hsplit).
  pose proof (ids_key_ne event_type) as Hne.
  unfold first_fetch_init. rewrite Hsplit, foldl_app. simpl.
  set (last_run1 := foldl (first_fetch_iter first_fetch) last_run pre).
  assert (∀ k, k = event_type ∨ k = ids_key event_type →
               last_run1 !! k = last_run !! k) as Hpre.
  { intros k Hk. apply first_fetch_foldl_other. intros other Hother.
    destruct (supported_keys_apart pre event_type post other Hsplit)
      as [[? ?] [? ?]]; [set_solver|]. by destruct Hk as [->| ->]. }
  assert (∀ k, k = event_type ∨ k = ids_key event_type →
               foldl (first_fetch_iter first_fetch)
                 (first_fetch_iter first_fetch last_run1 event_type) post !! k
               = first_fetch_iter first_fetch last_run1 event_type !! k)
    as Hpost.
  { intros k Hk. apply first_fetch_foldl_other. intros other Hother.
    destruct (supported_keys_apart pre event_type post other Hsplit)
      as [[? ?] [? ?]]; [set_solver|]. by destruct Hk as [->| ->]. }
  rewrite !Hpost by auto. unfold first_fetch_iter, last_run_get.
  rewrite !Hpre by auto.
  destruct (truthy (default (Atom SNone) (last_run !! event_type))).
  - rewrite !Hpre by auto. done.
  - rewrite lookup_insert_ne, lookup_insert_eq by done.
    rewrite lookup_insert_eq, lookup_insert_ne by done.
    rewrite !Hpre by auto. done.
Qed.

(** X14.  The first-fetch loop touches the two keys of each supported
    event type and nothing else.  A checkpoint whose timestamp is truthy is
    kept, timestamp and ids; where the timestamp is missing, [None] or 0 the
    first-fetch time is written, the saved ids are kept and an empty list
    stands in for missing ones. *)
Theorem first_fetch_init_effect (first_fetch : Z) (last_run : last_run_dict) :
  (∀ event_type,
     event_type ∈ ALL_SUPPORTED_EVENT_TYPES →
     (truthy (last_run_get last_run event_type) = true →
        first_fetch_init first_fetch last_run !! event_type
          = last_run !! event_type
        ∧ first_fetch_init first_fetch last_run !! ids_key event_type
          = last_run !! ids_key event_type)
     ∧ (truthy (last_run_get last_run event_type) = false →
        first_fetch_init first_fetch last_run !! event_type
          = Some (Atom (SInt first_fetch))
        ∧ first_fetch_init first_fetch last_run !! ids_key event_type
          = Some (default (PyList []) (last_run !! ids_key event_type))))
  ∧ (∀ k,
       (∀ event_type, event_type ∈ ALL_SUPPORTED_EVENT_TYPES →
                      k ≠ event_type ∧ k ≠ ids_key event_type) →
       first_fetch_init first_fetch last_run !! k = last_run !! k).
Proof.
  split.
  - intros event_type Hin.
    destruct (first_fetch_init_lookups first_fetch last_run event_type Hin)
      as [H1 H2].
    split; intros Ht; rewrite Ht in H1, H2; done.
  - intros k Hk. by apply first_fetch_foldl_other.
Qed.

(** X15.  Running the first-fetch loop on its own result changes nothing. *)
Theorem first_fetch_init_idempotent (first_fetch : Z)
    (last_run : last_run_dict) :
  first_fetch_init first_fetch (first_fetch_init first_fetch last_run)
  = first_fetch_init first_fetch last_run.
Proof.
  apply map_eq. intros k.
  destruct (decide (Exists (fun event_type =>
                              k = event_type ∨ k = ids_key event_type)
                           ALL_SUPPORTED_EVENT_TYPES)) as [Hex|Hnex].
  - apply Exists_exists in Hex as (event_type & Hin & Hk).
    destruct (first_fetch_init_lookups first_fetch
                (first_fetch_init first_fetch last_run) event_type Hin)
      as [H1 H2].
    destruct (first_fetch_init_lookups first_fetch last_run event_type Hin)
      as [H3 H4].
    assert (first_fetch_init first_fetch
              (first_fetch_init first_fetch last_run) !! event_type
            = first_fetch_init first_fetch last_run !! event_type
            ∧ first_fetch_init first_fetch
                (first_fetch_init first_fetch last_run) !! ids_key event_type
              = first_fetch_init first_fetch last_run !! ids_key event_type)
      as [? ?]; [|by destruct Hk as [->| ->]].
    destruct (truthy (last_run_get (first_fetch_init first_fetch last_run)
                        event_type)) eqn:Hseeded; [by rewrite H1, H2|].
    destruct (truthy (last_run_get last_run event_type)) eqn:Hprior.
    + unfold last_run_get in Hseeded, Hprior. rewrite H3 in Hseeded.
      congruence.
    + rewrite H1, H2, H3, H4. done.
  - apply first_fetch_foldl_other. intros event_type Hin.
    rewrite Exists_exists in Hnex. split; intros ->; apply Hnex; eauto.
Qed.

Lemma dedup_by_id_KeyError_inv last_run results event_type limit :
  dedup_by_id last_run results event_type limit = Raise KeyError →
  last_run !! event_type = None.
Proof.
  intros H. destruct (last_run !! event_type) as [saved|] eqn:Hsaved; [|done].
  unfold dedup_by_id in H.
  destruct (py_set (default (PyList []) (last_run !! ids_key event_type)))
    as [ids|e|] eqn:Hids; simpl in H.
  - by rewrite (dedup_loop_spec _ _ saved) in H.
  - destruct (last_run !! ids_key event_type) as [[[| |]| |]|];
      simpl in Hids; congruence.
  - done.
Qed.

(** X16.  After the first-fetch loop the last run holds a timestamp for
    every supported event type, so that on the last run [main] hands to the
    commands the lookup [last_run[event_type]] of [dedup_by_id] never
    fails: for a supported event type [dedup_by_id] does not raise
    [KeyError], whatever was stored. *)
Theorem dedup_by_id_after_first_fetch_init (first_fetch : Z)
    (stored : last_run_dict) (results : list record) (event_type : string)
    (limit : Z) :
  event_type ∈ ALL_SUPPORTED_EVENT_TYPES →
  is_Some (first_fetch_init first_fetch stored !! event_type)
  ∧ dedup_by_id (first_fetch_init first_fetch stored) results event_type limit
    ≠ Raise KeyError.
Proof.
  intros Hin.
  assert (is_Some (first_fetch_init first_fetch stored !! event_type))
    as Hsome.
  { destruct (first_fetch_init_lookups first_fetch stored event_type Hin)
      as [H _]. rewrite H. unfold last_run_get.
    destruct (stored !! event_type) as [o|]; simpl; [|eauto].
    destruct (truthy o); eauto. }
  split; [done|]. intros H%dedup_by_id_KeyError_inv.
  rewrite H in Hsome. by destruct Hsome.
Qed.

Lemma dedup_by_id_after_first_fetch_init_witness :
  is_Some (first_fetch_init 5 (mk_last_run "audit" 10 [SStr "a1"]) !! "page")
  ∧ dedup_by_id (first_fetch_init 5 (mk_last_run "audit" 10 [SStr "a1"]))
      [mk_record "p1" 20] "page" 10 ≠ Raise KeyError.
Proof.
  apply dedup_by_id_after_first_fetch_init. compute_done.
Defined.

(** ** [main] *)

Section EntryFacts.

Context {world : Type}.
Variable now : world -> Z.
Variable http_request : world -> request -> response * world.
Variable timestamp_to_datestring : scalar -> outcome string.
Variable send_events_to_xsiam : list record -> option exn.

(** X17.  [main] lets no exception out, and it saves a last run only
    after the sink has accepted the events.  A last run is saved only by
    [fetch-events], it is the state the cycle returned, the events of the
    same cycle were sent and accepted, and no error is replied; events are
    sent only by [fetch-events] and, when asked to push, by
    [netskope-get-events]; and a run that replies with an error saves
    nothing. *)
Theorem main_saves_after_delivery (fuel : nat) (w : world) (command : string)
    (api_version : string) (first_fetch : Z) (max_fetch limit_arg : option Z)
    (should_push_events : bool) (stored : last_run_dict) :
  (∀ e, main now http_request timestamp_to_datestring send_events_to_xsiam
          fuel w command api_version first_fetch max_fetch limit_arg
          should_push_events stored ≠ Raise e)
  ∧ ∀ effects,
      main now http_request timestamp_to_datestring send_events_to_xsiam
        fuel w command api_version first_fetch max_fetch limit_arg
        should_push_events stored = Ret effects →
      (∀ new_last_run,
         saved effects = Some new_last_run →
         command = "fetch-events"
         ∧ returned effects = None
         ∧ ∃ events w',
             get_all_events now http_request timestamp_to_datestring fuel w
               (first_fetch_init first_fetch stored) max_fetch api_version
               false = Ret (events, new_last_run, w')
             ∧ sent effects = Some events
             ∧ send_events_to_xsiam events = None)
      ∧ (∀ events,
           sent effects = Some events →
           command = "fetch-events"
           ∨ (command = "netskope-get-events" ∧ should_push_events = true))
      ∧ (∀ e, returned effects = Some (ReplyError e) →
              saved effects = None).
Proof.
  unfold main, test_module, fetch_events_command, failed.
  destruct (String.eqb_spec command "test-module") as [->|_].
  { destruct (get_all_events _ _ _ _ _ _ _ _ true) as [[[? ?] ?]|e|];
      simpl; (split; [done|]); intros effects [= <-]; simpl;
      repeat split; intros; simplify_eq. }
  destruct (String.eqb_spec command "netskope-get-events") as [->|_].
  { destruct (get_events_command _ _ _ _ _ _ _ _ true) as [[events ?]|e|];
      [destruct should_push_events;
         [destruct (send_events_to_xsiam events)|]| |];
      simpl; (split; [done|]); intros effects [= <-]; simpl;
      repeat split; intros; simplify_eq; auto. }
  destruct (String.eqb_spec command "fetch-events") as [->|_].
  { destruct (get_all_events _ _ _ _ _ _ _ _ false) as [[[ev nlr] w']|e|]
      eqn:Hall; [destruct (send_events_to_xsiam ev) eqn:Hsend| |];
      simpl; (split; [done|]); intros effects [= <-]; simpl;
      repeat split; intros; simplify_eq; eauto 10. }
  split; [done|]. intros effects [= <-]; simpl.
  repeat split; intros; simplify_eq.
Qed.

End EntryFacts.

Lemma main_saves_after_delivery_witness :
  let effects :=
    {| returned := None;
       sent := Some [parsed "audit" "1970-01-01T00:00:00Z" (mk_record "a1" 10);
                     parsed "page" "1970-01-01T00:00:00Z" (mk_record "p2" 21)];
       saved := Some (mk_last_run "page" 21 [SStr "p2"]
                        ∪ mk_last_run "audit" 10 [SStr "a1"]) |} in
  (∀ new_last_run,
     saved effects = Some new_last_run →
     "fetch-events" = "fetch-events"
     ∧ returned effects = None
     ∧ ∃ events w',
         get_all_events epoch two_types_remote datestring_stub 1 ()
           (first_fetch_init 5 two_types_last_run) None "v2" false
           = Ret (events, new_last_run, w')
         ∧ sent effects = Some events
         ∧ (λ _ : list record, @None exn) events = None)
  ∧ (∀ events,
       sent effects = Some events →
       "fetch-events" = "fetch-events"
       ∨ ("fetch-events" = "netskope-get-events" ∧ true = true))
  ∧ (∀ e, returned effects = Some (ReplyError e) → saved effects = None).
Proof.
  cbv zeta.
  apply (proj2 (main_saves_after_delivery epoch two_types_remote
                  datestring_stub (λ _, None) 1 () "fetch-events" "v2" 5 None
                  None true two_types_last_run)).
  compute_done.
Defined.
